(** * map-gen: the terrain pipeline of [src/utils/noise.ts]

    A shallow embedding of the seeded generator, the noise-map
    normalisation, the river tracer and the city placer, with the
    properties stated about them in the specification.

    Modelling conventions.
    - A JavaScript [number] that holds a grid coordinate, a counter or the
      generator state is an integer [Z].
    - [generateNoiseMap] is embedded on binary64 numbers ([PrimFloat]):
      its sums, products, differences and quotients round, overflow and
      produce NaN as the doubles of the source do.
    - In [generateRivers] and [placeCities] a height or a city size is a
      value of [num]: a rational, one of the two infinities, or NaN. These
      two functions only compare heights with each other and with the
      constants 0.3, 0.4, 0.6, 0.7, 0.8 and 1, taken as the rationals
      they denote; [Noise.toNum] gives the [num] of a double.
    - Reading an array outside its bounds gives [undefined] in JavaScript;
      every use the source makes of such a value is a relational
      comparison, where [undefined] behaves as NaN, so it is modelled
      as [NaN].
    - The closure returned by [createRandom] is modelled by explicit
      passing of its [state] variable. *)

From Stdlib Require Import ZArith QArith Qround Qminmax Qabs List Bool Lia Lqa Lra Reals Qreals.
From Stdlib Require String.
From Stdlib Require Floats.
Import ListNotations.

Open Scope Z_scope.

(** ** Numbers *)

Inductive num : Type :=
| Fin (q : Q)
| PInf
| NInf
| NaN.

(** [a < b] on JavaScript numbers: false as soon as one side is NaN. *)
Definition num_lt (a b : num) : bool :=
  match a, b with
  | Fin p, Fin q => if Qlt_le_dec p q then true else false
  | Fin _, PInf => true
  | NInf, Fin _ => true
  | NInf, PInf => true
  | _, _ => false
  end.

(** [a > b]. *)
Definition num_gt (a b : num) : bool := num_lt b a.

(** [a <= b]. *)
Definition num_le (a b : num) : bool :=
  match a, b with
  | Fin p, Fin q => if Qlt_le_dec q p then false else true
  | Fin _, PInf => true
  | NInf, Fin _ => true
  | NInf, PInf => true
  | PInf, PInf => true
  | NInf, NInf => true
  | _, _ => false
  end.

(** [arr[i]] for an array of numbers. *)
Definition lookup (arr : list num) (i : Z) : num :=
  if i <? 0 then NaN else nth (Z.to_nat i) arr NaN.

(** ** createRandom *)

(** One call of the closure: the new [state] and the returned value.
    [%] is JavaScript's remainder, which takes the sign of the dividend.
    For an integer seed below 2^32 in absolute value every intermediate
    value is an integer below 2^53, so the doubles of the source hold
    these integers exactly. *)
Definition random (state : Z) : Q * Z :=
  let state := Z.rem (state * 1664525 + 1013904223) 4294967296 in
  (state # 4294967296, state).

(** [Math.floor(r * n)]. *)
Definition floorMul (r : Q) (n : Z) : Z := Qfloor (r * inject_Z n).

Arguments random : simpl never.
Arguments floorMul : simpl never.
Arguments lookup : simpl never.

(** ** generateRivers *)

(** Which branch ended the downhill walk (not a value of the source:
    it records the branch that set [terminated], or the length cap). *)
Inductive stop : Type :=
| Sink
| OutOfBounds
| Cycle
| Cap.

Record start : Type := mkStart {
  startX : Z;
  startY : Z;
  attempts : Z;
  startState : Z
}.

Section Rivers.

Variable noiseMap : list num.
Variables width height : Z.

Definition getIndex (x y : Z) : Z := y * width + x.

Definition outside (x y : Z) : bool :=
  (x <? 0) || (x >=? width) || (y <? 0) || (y >=? height).

Definition getHeight (x y : Z) : num :=
  if outside x y then Fin 1 else lookup noiseMap (getIndex x y).

(** The test of the [do ... while] loop on the height of the sampled point. *)
Definition unsuitable (x y : Z) : bool :=
  num_lt (getHeight x y) (Fin (6 # 10)) || num_gt (getHeight x y) (Fin (8 # 10)).

(** The [do ... while] start-point search. The body runs once per call;
    [fuel] bounds the number of times the loop is re-entered. *)
Fixpoint searchStart (fuel : nat) (state : Z) (attempts : Z) : start :=
  let (r1, state) := random state in
  let startX := floorMul r1 width in
  let (r2, state) := random state in
  let startY := floorMul r2 height in
  let attempts := attempts + 1 in
  if unsuitable startX startY && (attempts <? 100) then
    match fuel with
    | S fuel' => searchStart fuel' state attempts
    | O => mkStart startX startY attempts state
    end
  else mkStart startX startY attempts state.

(** One step of the two nested [for] loops over the neighbours. *)
Definition scanNeighbor (currentX currentY ny nx : Z) (low : Z * Z * num)
  : Z * Z * num :=
  if (nx =? 0) && (ny =? 0) then low
  else
    let neighborX := currentX + nx in
    let neighborY := currentY + ny in
    let neighborHeight := getHeight neighborX neighborY in
    let '(_, _, lowestHeight) := low in
    if num_lt neighborHeight lowestHeight
    then (neighborX, neighborY, neighborHeight)
    else low.

(** [(lowestX, lowestY, lowestHeight)] after the scan of the 8 neighbours. *)
Definition lowestNeighbor (currentX currentY : Z) : Z * Z * num :=
  fold_left
    (fun low ny =>
       fold_left (fun low nx => scanNeighbor currentX currentY ny nx low)
                 [-1; 0; 1] low)
    [-1; 0; 1]
    (currentX, currentY, getHeight currentX currentY).

(** [river.includes(index)]. *)
Definition includes (index : Z) (river : list Z) : bool :=
  existsb (Z.eqb index) river.

(** The [while (!terminated && river.length < 1000)] loop. *)
Fixpoint walk (fuel : nat) (river : list Z) (currentX currentY : Z)
  : list Z * stop :=
  match fuel with
  | O => (river, Cap)
  | S fuel' =>
      if Z.of_nat (length river) <? 1000 then
        let '(lowestX, lowestY, _) := lowestNeighbor currentX currentY in
        if (lowestX =? currentX) && (lowestY =? currentY) then (river, Sink)
        else if outside lowestX lowestY then (river, OutOfBounds)
        else
          let index := getIndex lowestX lowestY in
          if includes index river then (river, Cycle)
          else walk fuel' (river ++ [index]) lowestX lowestY
      else (river, Cap)
  end.

Variable minRiverLength : Z.

(** One iteration of the [for (r ...)] loop: the river it pushes, if
    any, and the generator state it leaves. *)
Definition riverAttempt (state : Z) : option (list Z) * Z :=
  let (_, state) := random state in
  let (_, state) := random state in
  let s := searchStart 99 state 0 in
  if attempts s >=? 100 then (None, startState s)
  else
    let river := fst (walk 1000 [getIndex (startX s) (startY s)]
                           (startX s) (startY s)) in
    if Z.of_nat (length river) >=? minRiverLength
    then (Some river, startState s)
    else (None, startState s).

Fixpoint riverLoop (n : nat) (state : Z) (rivers : list (list Z))
  : list (list Z) :=
  match n with
  | O => rivers
  | S n' =>
      let (res, state) := riverAttempt state in
      riverLoop n' state
        (match res with Some river => rivers ++ [river] | None => rivers end)
  end.

End Rivers.

Definition generateRivers (noiseMap : list num) (width height seed : Z)
           (riverCount minRiverLength : Z) : list (list Z) :=
  riverLoop noiseMap width height minRiverLength (Z.to_nat riverCount) seed [].

(** ** placeCities *)

Module City.
Record t : Type := mk { x : Z; y : Z; size : Q }.
End City.

(** [Math.sqrt(d2) < t] for an integer [d2], decided without computing
    the root: the comparison of the exact real numbers (see
    [sqrt_lt_real] below). *)
Definition sqrt_lt (d2 : Z) (t : Q) : bool :=
  if Qlt_le_dec 0 t
  then if Qlt_le_dec (inject_Z d2) (t * t) then true else false
  else false.

(** The integers [lo, lo+1, ..., hi]. *)
Definition zrange (lo hi : Z) : list Z :=
  map (fun k => lo + Z.of_nat k) (seq 0 (Z.to_nat (hi - lo + 1))).

Section Cities.

Variable noiseMap : list num.
Variable rivers : list (list Z).
Variables width height : Z.

(** [new Set(rivers.flat())]; only [has] is used on it. *)
Definition riverPoints : list Z := concat rivers.

Definition has (i : Z) : bool := existsb (Z.eqb i) riverPoints.

(** The two loops return [true] at the first hit and have no other
    effect, so the result is that of [existsb]. *)
Definition isNearRiver (x y distance : Z) : bool :=
  existsb
    (fun ny =>
       existsb
         (fun nx =>
            let checkX := x + nx in
            let checkY := y + ny in
            if outside width height checkX checkY then false
            else has (checkY * width + checkX))
         (zrange (- distance) distance))
    (zrange (- distance) distance).

(** [distance < width / 10] for one placed city. *)
Definition closeTo (x y : Z) (city : City.t) : bool :=
  sqrt_lt ((City.x city - x) ^ 2 + (City.y city - y) ^ 2)
          (inject_Z width / 10)%Q.

(** The [for (const city of cities)] loop with its [break]. *)
Definition tooClose (x y : Z) (cities : list City.t) : bool :=
  existsb (closeTo x y) cities.

(** The size given to a city from the draw [r]. *)
Definition citySize (r : Q) (nearRiver : bool) (terrainHeight : num) : Q :=
  let size := (1 + r * 2)%Q in
  let size := if nearRiver then (size + 1)%Q else size in
  if num_gt terrainHeight (Fin (4 # 10)) && num_lt terrainHeight (Fin (6 # 10))
  then (size + (1 # 2))%Q else size.

Variable cityCount : Z.

(** The [while (cities.length < cityCount && attempts < cityCount * 10)]
    loop; every [continue] is a recursive call. *)
Fixpoint placeLoop (fuel : nat) (state : Z) (cities : list City.t)
         (attempts : Z) : list City.t :=
  match fuel with
  | O => cities
  | S fuel' =>
      if (Z.of_nat (length cities) <? cityCount) && (attempts <? cityCount * 10)
      then
        let attempts := attempts + 1 in
        let (r1, state) := random state in
        let x := floorMul r1 width in
        let (r2, state) := random state in
        let y := floorMul r2 height in
        let terrainHeight := lookup noiseMap (y * width + x) in
        if num_lt terrainHeight (Fin (3 # 10)) || num_gt terrainHeight (Fin (7 # 10))
        then placeLoop fuel' state cities attempts
        else
          let nearRiver := isNearRiver x y 3 in
          (* [!nearRiver && random() < 0.7]: the draw is made only when
             the point is not near a river *)
          let '(skip, state) :=
            if nearRiver then (false, state)
            else
              let (r3, state) := random state in
              (if Qlt_le_dec r3 (7 # 10) then true else false, state) in
          if skip then placeLoop fuel' state cities attempts
          else if tooClose x y cities then placeLoop fuel' state cities attempts
          else
            let (r4, state) := random state in
            let size := citySize r4 nearRiver terrainHeight in
            placeLoop fuel' state (cities ++ [City.mk x y size]) attempts
      else cities
  end.

End Cities.

Definition placeCities (noiseMap : list num) (rivers : list (list Z))
           (width height seed cityCount : Z) : list City.t :=
  placeLoop noiseMap rivers width height cityCount
            (Z.to_nat (cityCount * 10)) seed [] 0.

(** ** generateNoiseMap

    The noise map is computed in double precision, and the claims about
    it turn on what doubles do (0 / 0, overflow), so this function is
    embedded on the binary64 numbers of the Standard Library, whose
    operations are those of IEEE 754 with rounding to nearest. *)

(** [arr[i] = v] for [0 <= i < arr.length]; the writes of
    [generateNoiseMap] are all in that range (see
    [NoiseProps.cell_index_range]), so an index outside it leaves the
    list as it is. *)
Fixpoint assign {A : Type} (arr : list A) (i : nat) (v : A) : list A :=
  match arr, i with
  | [], _ => []
  | _ :: rest, O => v :: rest
  | a :: rest, S i' => a :: assign rest i' v
  end.

Module Noise.

Import PrimFloat.

(** The double that holds the integer [z]; exact for [|z| < 2^53],
    which covers the states of the generator and the loop counters. *)
Definition ofZ (z : Z) : float :=
  if z <? 0 then (- of_uint63 (Uint63.of_Z (- z)))%float
  else of_uint63 (Uint63.of_Z z).

(** The closure of [createRandom] again, its value as the double
    [state / 4294967296]. *)
Definition random (state : Z) : float * Z :=
  let state := Z.rem (state * 1664525 + 1013904223) 4294967296 in
  ((ofZ state / 4294967296)%float, state).

(** [Number.MIN_VALUE], the smallest positive double, and
    [Number.MAX_VALUE], the largest finite one. *)
Definition MIN_VALUE : float := 0x1p-1074%float.
Definition MAX_VALUE : float := 0x1.fffffffffffffp+1023%float.

(** [Math.max(a, b)]: NaN when one argument is NaN, and [+0] above [-0]. *)
Definition mathMax (a b : float) : float :=
  if is_nan a || is_nan b then nan
  else if (a <? b)%float then b
  else if (b <? a)%float then a
  else if get_sign a then b else a.

(** [Math.min(a, b)]: NaN when one argument is NaN, and [-0] below [+0]. *)
Definition mathMin (a b : float) : float :=
  if is_nan a || is_nan b then nan
  else if (a <? b)%float then a
  else if (b <? a)%float then b
  else if get_sign a then a else b.

(** [Array.from({ length: octaves }, () => ({ x: ..., y: ... }))]. *)
Fixpoint drawOffsets (n : nat) (state : Z) : list (float * float) :=
  match n with
  | O => []
  | S n' =>
      let (r1, state) := random state in
      let (r2, state) := random state in
      ((r1 * 100000)%float, (r2 * 100000)%float) :: drawOffsets n' state
  end.

Section Pass.

Variable noise2D : float -> float -> float.
Variables scale persistence lacunarity : float.

(** The loop over the octaves of one cell, [octaveOffsets[i]] being
    the head of [offsets]. *)
Fixpoint octaveLoop (offsets : list (float * float)) (x y : Z)
         (amplitude frequency noiseHeight : float) : float :=
  match offsets with
  | [] => noiseHeight
  | (offX, offY) :: rest =>
      let sampleX := ((ofZ x / scale) * frequency + offX)%float in
      let sampleY := ((ofZ y / scale) * frequency + offY)%float in
      let noiseValue := noise2D sampleX sampleY in
      octaveLoop rest x y (amplitude * persistence)%float
                 (frequency * lacunarity)%float
                 (noiseHeight + noiseValue * amplitude)%float
  end.

Variable octaveOffsets : list (float * float).
Variable width : Z.

(** The raw value of the cell [(x, y)]. *)
Definition noiseHeightAt (x y : Z) : float :=
  octaveLoop octaveOffsets x y 1%float 1%float 0%float.

(** The body of the inner [for] loop on
    [(noiseMap, maxNoiseHeight, minNoiseHeight)]. *)
Definition cellStep (y x : Z) (acc : list float * float * float)
  : list float * float * float :=
  let '(noiseMap, maxNoiseHeight, minNoiseHeight) := acc in
  let noiseHeight := noiseHeightAt x y in
  let maxNoiseHeight := mathMax maxNoiseHeight noiseHeight in
  let minNoiseHeight := mathMin minNoiseHeight noiseHeight in
  (assign noiseMap (Z.to_nat (y * width + x)) noiseHeight,
   maxNoiseHeight, minNoiseHeight).

Definition rowStep (acc : list float * float * float) (y : Z)
  : list float * float * float :=
  fold_left (fun acc x => cellStep y x acc) (zrange 0 (width - 1)) acc.

(** The first pass: the raw field and the tracked maximum and minimum. *)
Definition rawPass (height : Z) : list float * float * float :=
  fold_left rowStep (zrange 0 (height - 1))
            (repeat 0%float (Z.to_nat (width * height)), MIN_VALUE, MAX_VALUE).

End Pass.

(** The second pass on one cell. *)
Definition normalize (maxNoiseHeight minNoiseHeight v : float) : float :=
  ((v - minNoiseHeight) / (maxNoiseHeight - minNoiseHeight))%float.

(** Everything up to the end of the first pass: the raw field with the
    tracked maximum and minimum. The generator starts in the state
    [seed]; [if (scale <= 0) scale = 0.0001] replaces a scale that is
    zero or negative (the literal below is the double 0.0001).

    [createNoise2D] belongs to the package simplex-noise, not to the
    repository, and is a parameter: from the state of the generator it
    is given, the sampler it returns and the state it leaves after its
    draws. *)
Definition firstPass (createNoise2D : Z -> (float -> float -> float) * Z)
           (width height seed : Z) (scale : float) (octaves : Z)
           (persistence lacunarity : float) : list float * float * float :=
  let (noise2D, state) := createNoise2D seed in
  let scale := if (scale <=? 0)%float then 0x1.a36e2eb1c432dp-14%float else scale in
  let octaveOffsets := drawOffsets (Z.to_nat octaves) state in
  rawPass noise2D scale persistence lacunarity octaveOffsets width height.

(** The three components of the state of the first pass. *)
Definition rawCells (acc : list float * float * float) : list float :=
  fst (fst acc).
Definition trackedMax (acc : list float * float * float) : float :=
  snd (fst acc).
Definition trackedMin (acc : list float * float * float) : float := snd acc.

(** The whole function. [new Array(n)] throws a [RangeError] unless
    [n] is an integer of [[0, 2^32 - 1]]; [Array.from] builds its
    result with [new Array(octaves)] when [octaves] is positive (a
    negative length counts as 0), and throws likewise above
    [2^32 - 1]. A throw is [None]. *)
Definition generateNoiseMap (createNoise2D : Z -> (float -> float -> float) * Z)
           (width height seed : Z) (scale : float) (octaves : Z)
           (persistence lacunarity : float) : option (list float) :=
  if (width * height <? 0) || (4294967295 <? width * height)
     || (4294967295 <? octaves) then None
  else
    let pass :=
      firstPass createNoise2D width height seed scale octaves
                persistence lacunarity in
    Some (map (normalize (trackedMax pass) (trackedMin pass)) (rawCells pass)).

(** The value of a double as a height of the river tracer and of the
    city placer. *)
Definition toNum (f : float) : num :=
  match FloatOps.Prim2SF f with
  | SpecFloat.S754_zero _ => Fin 0
  | SpecFloat.S754_infinity false => PInf
  | SpecFloat.S754_infinity true => NInf
  | SpecFloat.S754_nan => NaN
  | SpecFloat.S754_finite s m e =>
      Fin ((if s then -1 else 1) * inject_Z (Z.pos m) * 2 ^ e)%Q
  end.

(** The field as [generateRivers] and [placeCities] receive it. *)
Definition heightField (field : list float) : list num := map toNum field.

(** A sampler that returns the same value everywhere and makes no draw. *)
Definition flatNoise (v : float) (state : Z) : (float -> float -> float) * Z :=
  (fun _ _ => v, state).

(** A sampler with two negative values, that makes no draw. *)
Definition stepNoise (state : Z) : (float -> float -> float) * Z :=
  (fun sampleX _ =>
     if (sampleX <? 23646)%float then (-0.5)%float else (-0.25)%float,
   state).

(** A sampler that returns its first coordinate and makes no draw. *)
Definition slopeNoise (state : Z) : (float -> float -> float) * Z :=
  (fun sampleX _ => sampleX, state).

End Noise.

(** ** The two consumers of the height field, on the caller's array

    [generateRivers] and [placeCities] receive the array of the caller.
    Here they are written again as computations on that array, reading
    it where the source reads it; [Heap.store] is the write such a
    computation could make. *)

Module Heap.

Definition M (A : Type) : Type := list num -> A * list num.

Definition ret {A : Type} (a : A) : M A := fun h => (a, h).

Definition bind {A B : Type} (c : M A) (k : A -> M B) : M B :=
  fun h => let (a, h') := c h in k a h'.

(** [noiseMap[i]]. *)
Definition load (i : Z) : M num := fun h => (lookup h i, h).

Fixpoint storeAt (arr : list num) (i : nat) (v : num) : list num :=
  match arr, i with
  | [], _ => []
  | _ :: rest, O => v :: rest
  | a :: rest, S i' => a :: storeAt rest i' v
  end.

(** [noiseMap[i] = v] within the bounds of the array. *)
Definition store (i : Z) (v : num) : M unit :=
  fun h => (tt, if i <? 0 then h else storeAt h (Z.to_nat i) v).

Fixpoint foldM {A B : Type} (f : A -> B -> M A) (l : list B) (a : A) : M A :=
  match l with
  | [] => ret a
  | b :: rest => bind (f a b) (foldM f rest)
  end.

End Heap.

Notation "x <- c1 ;; c2" := (Heap.bind c1 (fun x => c2))
  (at level 61, c1 at next level, right associativity).

Section RiversOnHeap.

Variables width height : Z.

Definition getHeightM (x y : Z) : Heap.M num :=
  if outside width height x y then Heap.ret (Fin 1)
  else Heap.load (getIndex width x y).

(** [getHeight(..) < 0.6 || getHeight(..) > 0.8]: the second read is
    made only when the first comparison is false. *)
Definition unsuitableM (x y : Z) : Heap.M bool :=
  h1 <- getHeightM x y ;;
  if num_lt h1 (Fin (6 # 10)) then Heap.ret true
  else h2 <- getHeightM x y ;; Heap.ret (num_gt h2 (Fin (8 # 10))).

Fixpoint searchStartM (fuel : nat) (state : Z) (attempts : Z) : Heap.M start :=
  let (r1, state) := random state in
  let startX := floorMul r1 width in
  let (r2, state) := random state in
  let startY := floorMul r2 height in
  let attempts := attempts + 1 in
  u <- unsuitableM startX startY ;;
  if u && (attempts <? 100) then
    match fuel with
    | S fuel' => searchStartM fuel' state attempts
    | O => Heap.ret (mkStart startX startY attempts state)
    end
  else Heap.ret (mkStart startX startY attempts state).

Definition scanNeighborM (currentX currentY ny nx : Z) (low : Z * Z * num)
  : Heap.M (Z * Z * num) :=
  if (nx =? 0) && (ny =? 0) then Heap.ret low
  else
    let neighborX := currentX + nx in
    let neighborY := currentY + ny in
    neighborHeight <- getHeightM neighborX neighborY ;;
    let '(_, _, lowestHeight) := low in
    if num_lt neighborHeight lowestHeight
    then Heap.ret (neighborX, neighborY, neighborHeight)
    else Heap.ret low.

Definition lowestNeighborM (currentX currentY : Z) : Heap.M (Z * Z * num) :=
  lowestHeight <- getHeightM currentX currentY ;;
  Heap.foldM
    (fun low ny =>
       Heap.foldM (fun low nx => scanNeighborM currentX currentY ny nx low)
                  [-1; 0; 1] low)
    [-1; 0; 1]
    (currentX, currentY, lowestHeight).

Fixpoint walkM (fuel : nat) (river : list Z) (currentX currentY : Z)
  : Heap.M (list Z * stop) :=
  match fuel with
  | O => Heap.ret (river, Cap)
  | S fuel' =>
      if Z.of_nat (length river) <? 1000 then
        low <- lowestNeighborM currentX currentY ;;
        let '(lowestX, lowestY, _) := low in
        if (lowestX =? currentX) && (lowestY =? currentY)
        then Heap.ret (river, Sink)
        else if outside width height lowestX lowestY
        then Heap.ret (river, OutOfBounds)
        else
          let index := getIndex width lowestX lowestY in
          if includes index river then Heap.ret (river, Cycle)
          else walkM fuel' (river ++ [index]) lowestX lowestY
      else Heap.ret (river, Cap)
  end.

Variable minRiverLength : Z.

Definition riverAttemptM (state : Z) : Heap.M (option (list Z) * Z) :=
  let (_, state) := random state in
  let (_, state) := random state in
  s <- searchStartM 99 state 0 ;;
  if attempts s >=? 100 then Heap.ret (None, startState s)
  else
    w <- walkM 1000 [getIndex width (startX s) (startY s)]
               (startX s) (startY s) ;;
    let river := fst w in
    if Z.of_nat (length river) >=? minRiverLength
    then Heap.ret (Some river, startState s)
    else Heap.ret (None, startState s).

Fixpoint riverLoopM (n : nat) (state : Z) (rivers : list (list Z))
  : Heap.M (list (list Z)) :=
  match n with
  | O => Heap.ret rivers
  | S n' =>
      res <- riverAttemptM state ;;
      riverLoopM n' (snd res)
        (match fst res with Some river => rivers ++ [river] | None => rivers end)
  end.

End RiversOnHeap.

Definition generateRiversM (width height seed riverCount minRiverLength : Z)
  : Heap.M (list (list Z)) :=
  riverLoopM width height minRiverLength (Z.to_nat riverCount) seed [].

Section CitiesOnHeap.

Variable rivers : list (list Z).
Variables width height cityCount : Z.

Fixpoint placeLoopM (fuel : nat) (state : Z) (cities : list City.t)
         (attempts : Z) : Heap.M (list City.t) :=
  match fuel with
  | O => Heap.ret cities
  | S fuel' =>
      if (Z.of_nat (length cities) <? cityCount) && (attempts <? cityCount * 10)
      then
        let attempts := attempts + 1 in
        let (r1, state) := random state in
        let x := floorMul r1 width in
        let (r2, state) := random state in
        let y := floorMul r2 height in
        terrainHeight <- Heap.load (y * width + x) ;;
        if num_lt terrainHeight (Fin (3 # 10)) || num_gt terrainHeight (Fin (7 # 10))
        then placeLoopM fuel' state cities attempts
        else
          let nearRiver := isNearRiver rivers width height x y 3 in
          let '(skip, state) :=
            if nearRiver then (false, state)
            else
              let (r3, state) := random state in
              (if Qlt_le_dec r3 (7 # 10) then true else false, state) in
          if skip then placeLoopM fuel' state cities attempts
          else if tooClose width x y cities
          then placeLoopM fuel' state cities attempts
          else
            let (r4, state) := random state in
            let size := citySize r4 nearRiver terrainHeight in
            placeLoopM fuel' state (cities ++ [City.mk x y size]) attempts
      else Heap.ret cities
  end.

End CitiesOnHeap.

Definition placeCitiesM (rivers : list (list Z)) (width height seed cityCount : Z)
  : Heap.M (list City.t) :=
  placeLoopM rivers width height cityCount (Z.to_nat (cityCount * 10)) seed [] 0.

(** ** Predicates used in the statements *)

(** [R a b] for every two consecutive elements [a], [b] of a list. *)
Fixpoint chain {A : Type} (R : A -> A -> Prop) (l : list A) : Prop :=
  match l with
  | a :: (b :: _) as rest => R a b /\ chain R rest
  | _ => True
  end.

(** A height that is a number of [[0, 1]]. *)
Definition unitHeight (v : num) : Prop :=
  match v with
  | Fin q => (0 <= q <= 1)%Q
  | _ => False
  end.

(** A height that is the number [q]. *)
Definition isValue (q : Q) (v : num) : Prop :=
  match v with
  | Fin p => (p == q)%Q
  | _ => False
  end.

(** A height of the band [[0.6, 0.8]] of river sources. *)
Definition sourceHeight (v : num) : Prop :=
  match v with
  | Fin q => (6 # 10 <= q <= 8 # 10)%Q
  | _ => False
  end.

(** What the scan of the neighbours maintains on
    [(lowestX, lowestY, lowestHeight)]: the recorded height is that of
    the recorded point, which is the current point or a strictly lower
    one. *)
Definition lowerInv (getHeight : Z -> Z -> num) (currentX currentY : Z)
           (low : Z * Z * num) : Prop :=
  let '(lowestX, lowestY, lowestHeight) := low in
  lowestHeight = getHeight lowestX lowestY /\
  ((lowestX = currentX /\ lowestY = currentY) \/
   num_lt lowestHeight (getHeight currentX currentY) = true).

(** What it maintains on a field of heights at most 1: the recorded
    height is not above 1 and the recorded point is the current point
    or a point of the grid. *)
Definition insideInv (outside : Z -> Z -> bool) (currentX currentY : Z)
           (low : Z * Z * num) : Prop :=
  let '(lowestX, lowestY, lowestHeight) := low in
  num_lt (Fin 1) lowestHeight = false /\
  ((lowestX = currentX /\ lowestY = currentY) \/
   outside lowestX lowestY = false).

(** An index of the grid. *)
Definition inGrid (width height i : Z) : Prop := 0 <= i < width * height.

(** The height at index [b] is strictly below the height at index [a]. *)
Definition below (noiseMap : list num) (a b : Z) : Prop :=
  num_lt (lookup noiseMap b) (lookup noiseMap a) = true.

(** What a traced river satisfies, with [first] its first index. *)
Record tracedRiver (noiseMap : list num) (width height first : Z)
       (river : list Z) : Prop := {
  traced_first : exists rest, river = first :: rest;
  traced_chain : chain (below noiseMap) river;
  traced_nodup : NoDup river;
  traced_grid : Forall (inGrid width height) river
}.

(** The Euclidean distance between two cities, as a real number. *)
Definition distance (a b : City.t) : R :=
  sqrt (IZR ((City.x a - City.x b) ^ 2 + (City.y a - City.y b) ^ 2)).

(** No city of the list is closer than [width / 10] to a later one,
    by the test of the source. *)
Definition spaced (width : Z) (cities : list City.t) : Prop :=
  ForallOrdPairs
    (fun a b => closeTo width (City.x b) (City.y b) a = false) cities.

(** The size of a city follows the rule of the source from some draw
    of [[0, 1)]. *)
Definition sizeRule (noiseMap : list num) (rivers : list (list Z))
           (width height : Z) (c : City.t) : Prop :=
  exists r : Q,
    (0 <= r < 1)%Q /\
    City.size c
    = citySize r (isNearRiver rivers width height (City.x c) (City.y c) 3)
               (lookup noiseMap (City.y c * width + City.x c)).

(** ** Sample inputs *)

(** A 20 x 20 field at height 0.5. *)
Definition plain : list num := repeat (Fin (1 # 2)) 400.


(** A 4 x 4 field: three columns at 0.7 and the last one at 0, but for
    the first cell, at 1. *)
Definition ridgeRow : list num :=
  [Fin (7 # 10); Fin (7 # 10); Fin (7 # 10); Fin 0].

Definition ridgeField : list num :=
  [Fin 1; Fin (7 # 10); Fin (7 # 10); Fin 0] ++ ridgeRow ++ ridgeRow ++ ridgeRow.

(** A 16 x 16 field: 0 everywhere but 0.7 at index 23, the cell (7, 1),
    and 1 at the last index. *)
Definition lonePeak : list num :=
  map (fun i => if Z.of_nat i =? 23 then Fin (7 # 10)
                else if Z.of_nat i =? 255 then Fin 1 else Fin 0)
      (seq 0 256).

(** ** The renderer: components/MapGenerator.tsx *)

Module Render.

Import String.

(** The table [terrainColors]: the upper height of each band and its colour. *)
Definition terrainColors : list (Q * string) :=
  [ (2 # 10, "#0077be"%string);
    (3 # 10, "#0099cc"%string);
    (4 # 10, "#e9d8a6"%string);
    (5 # 10, "#94c973"%string);
    (7 # 10, "#53a548"%string);
    (8 # 10, "#8b5e34"%string);
    (1%Q, "#ffffff"%string) ].

(** The loop over the table: the colour of the first band with
    [height <= band.height], or [color] when there is none. *)
Fixpoint firstBand (bands : list (Q * string)) (height : num)
         (color : string) : string :=
  match bands with
  | [] => color
  | (bandHeight, bandColor) :: rest =>
      if num_le height (Fin bandHeight) then bandColor
      else firstBand rest height color
  end.

(** The colour of a pixel: [color] starts as [terrainColors[0].color]. *)
Definition terrainColor (height : num) : string :=
  firstBand terrainColors height
            (match terrainColors with
             | (_, color) :: _ => color
             | [] => EmptyString
             end).

End Render.

(** The canvas point of a river index:
    [x = index % width], [y = Math.floor(index / width)]. *)
Definition riverPoint (width index : Z) : Z * Z :=
  (Z.rem index width, Qfloor (inject_Z index / inject_Z width)).

(** ** Auxiliary functions of the further properties *)

(** The first [n] values returned by the closure of [createRandom]. *)
Fixpoint randomDraws (n : nat) (state : Z) : list Q :=
  match n with
  | O => []
  | S n' => let (r, state) := random state in r :: randomDraws n' state
  end.

(** ** Predicates of the further properties *)

(** [a] and [b] are the indices of two different cells of the grid that
    are at most one column and one row apart. *)
Definition adjacent (width height a b : Z) : Prop :=
  exists x y x' y',
    outside width height x y = false /\
    outside width height x' y' = false /\
    a = getIndex width x y /\
    b = getIndex width x' y' /\
    Z.abs (x' - x) <= 1 /\ Z.abs (y' - y) <= 1 /\
    (x' <> x \/ y' <> y).

(** No cell around [(x, y)] is strictly lower than [(x, y)], by the
    comparison of the scan (a point outside the grid counts as 1). *)
Definition localMinimum (noiseMap : list num) (width height x y : Z) : Prop :=
  forall nx ny,
    -1 <= nx <= 1 -> -1 <= ny <= 1 ->
    num_lt (getHeight noiseMap width height (x + nx) (y + ny))
           (getHeight noiseMap width height x y) = false.

(** ** Numbers: comparison lemmas *)

Lemma num_lt_trans (a b c : num) :
  num_lt a b = true -> num_lt b c = true -> num_lt a c = true.
Proof.
  destruct a as [p| | |], b as [q| | |], c as [r| | |]; simpl; try congruence.
  destruct (Qlt_le_dec p q), (Qlt_le_dec q r), (Qlt_le_dec p r);
    try congruence.
  intros _ _. exfalso. apply (Qlt_irrefl p).
  eapply Qlt_le_trans; [ eapply Qlt_trans; eassumption | assumption ].
Qed.

Lemma num_lt_le (a b : num) : num_lt a b = true -> num_le a b = true.
Proof.
  destruct a as [p| | |], b as [q| | |]; simpl; try congruence.
  destruct (Qlt_le_dec p q), (Qlt_le_dec q p); try congruence.
  intros _. exfalso. apply (Qlt_irrefl p). eapply Qlt_trans; eassumption.
Qed.

Lemma num_lt_irrefl (a : num) : num_lt a a = false.
Proof.
  destruct a as [p| | |]; simpl; try reflexivity.
  destruct (Qlt_le_dec p p) as [H|H]; [ | reflexivity ].
  exfalso. exact (Qlt_irrefl p H).
Qed.

(** Nothing below a height that 1 does not exceed is exceeded by 1. *)
Lemma num_lt_one_below (n l : num) :
  num_lt n l = true -> num_lt (Fin 1) l = false -> num_lt (Fin 1) n = false.
Proof.
  destruct n as [p| | |], l as [q| | |]; simpl; try congruence.
  destruct (Qlt_le_dec p q), (Qlt_le_dec 1 q), (Qlt_le_dec 1 p);
    try congruence.
  intros _ _. exfalso. apply (Qlt_irrefl 1).
  eapply Qlt_le_trans; [ eapply Qlt_trans; eassumption | assumption ].
Qed.

Lemma unitHeight_not_above (v : num) : unitHeight v -> num_lt (Fin 1) v = false.
Proof.
  destruct v as [q| | |]; simpl; try tauto.
  intros [_ H]. destruct (Qlt_le_dec 1 q) as [L|L]; [ | reflexivity ].
  exfalso. apply (Qlt_irrefl 1). eapply Qlt_le_trans; eassumption.
Qed.

Lemma lookup_Forall (P : num -> Prop) (arr : list num) (i : Z) :
  Forall P arr -> lookup arr i = NaN \/ P (lookup arr i).
Proof.
  intros HF. unfold lookup. destruct (i <? 0); [ now left | ].
  destruct (Nat.lt_ge_cases (Z.to_nat i) (length arr)) as [L|L].
  - right. rewrite Forall_forall in HF. apply HF. now apply nth_In.
  - left. now apply nth_overflow.
Qed.

(** ** generateRivers: the scan of the neighbours *)

Lemma fold_left_preserves {A B : Type} (P : A -> Prop) (f : A -> B -> A)
      (l : list B) :
  (forall a b, P a -> P (f a b)) -> forall a, P a -> P (fold_left f l a).
Proof.
  intros Hf. induction l as [|b l IH]; intros a Ha; simpl; auto.
Qed.

Section RiverProps.

Variable noiseMap : list num.
Variables width height : Z.

Lemma inside_index (x y : Z) :
  outside width height x y = false ->
  0 <= getIndex width x y < width * height.
Proof.
  unfold outside, getIndex.
  rewrite !orb_false_iff. intros [[[H1 H2] H3] H4].
  apply Z.ltb_ge in H1, H3.
  rewrite Z.geb_leb in H2, H4. apply Z.leb_gt in H2, H4.
  nia.
Qed.

Lemma getHeight_inside (x y : Z) :
  outside width height x y = false ->
  getHeight noiseMap width height x y = lookup noiseMap (getIndex width x y).
Proof.
  intros H. unfold getHeight. now rewrite H.
Qed.

Lemma scanNeighbor_lower (cx cy ny nx : Z) (low : Z * Z * num) :
  lowerInv (getHeight noiseMap width height) cx cy low ->
  lowerInv (getHeight noiseMap width height) cx cy
           (scanNeighbor noiseMap width height cx cy ny nx low).
Proof.
  destruct low as [[lx ly] lh]. intros [Hh Hc]. unfold scanNeighbor.
  destruct ((nx =? 0) && (ny =? 0)); [ now split | ].
  destruct (num_lt (getHeight noiseMap width height (cx + nx) (cy + ny)) lh)
    eqn:E; [ | now split ].
  split; [ reflexivity | right ].
  destruct Hc as [[-> ->]|Hc].
  - now rewrite <- Hh.
  - eapply num_lt_trans; eassumption.
Qed.

Lemma lowestNeighbor_lower (cx cy : Z) :
  lowerInv (getHeight noiseMap width height) cx cy
           (lowestNeighbor noiseMap width height cx cy).
Proof.
  unfold lowestNeighbor.
  apply fold_left_preserves.
  - intros low ny Hlow. apply fold_left_preserves; [ | exact Hlow ].
    intros low' nx Hlow'. now apply scanNeighbor_lower.
  - split; [ reflexivity | now left ].
Qed.

(** A move of the walk goes to a strictly lower point. *)
Lemma lowestNeighbor_moves_down (cx cy lx ly : Z) (lh : num) :
  lowestNeighbor noiseMap width height cx cy = (lx, ly, lh) ->
  (lx =? cx) && (ly =? cy) = false ->
  num_lt (getHeight noiseMap width height lx ly)
         (getHeight noiseMap width height cx cy) = true.
Proof.
  intros E Hne. pose proof (lowestNeighbor_lower cx cy) as H.
  rewrite E in H. destruct H as [Hh [[-> ->]|Hlt]].
  - now rewrite !Z.eqb_refl in Hne.
  - now rewrite <- Hh.
Qed.

Lemma chain_snoc {A : Type} (R : A -> A -> Prop) (l : list A) (a b : A) :
  chain R (l ++ [a]) -> R a b -> chain R ((l ++ [a]) ++ [b]).
Proof.
  intros Hc Hab. induction l as [|x l IH]; simpl.
  - auto.
  - destruct l as [|x' l]; simpl in *.
    + tauto.
    + destruct Hc as [Hx Hc]. split; [ exact Hx | exact (IH Hc) ].
Qed.

Lemma includes_false (index : Z) (river : list Z) :
  includes index river = false -> ~ In index river.
Proof.
  unfold includes. intros E HIn.
  assert (H : existsb (Z.eqb index) river = true).
  { apply existsb_exists. exists index. split; [ exact HIn | apply Z.eqb_refl ]. }
  congruence.
Qed.

(** The walk keeps the river a strictly descending chain of distinct
    indices of the grid, and only adds at its end. *)
Lemma walk_traced (fuel : nat) :
  forall (pre : list Z) (cx cy first : Z),
    outside width height cx cy = false ->
    tracedRiver noiseMap width height first (pre ++ [getIndex width cx cy]) ->
    tracedRiver noiseMap width height first
      (fst (walk noiseMap width height fuel (pre ++ [getIndex width cx cy]) cx cy)).
Proof.
  induction fuel as [|fuel IH]; intros pre cx cy first Hin Hr; simpl.
  - exact Hr.
  - destruct (Z.of_nat (length (pre ++ [getIndex width cx cy])) <? 1000);
      [ | exact Hr ].
    destruct (lowestNeighbor noiseMap width height cx cy) as [[lx ly] lh] eqn:E.
    destruct ((lx =? cx) && (ly =? cy)) eqn:Emove; [ exact Hr | ].
    destruct (outside width height lx ly) eqn:Eout; [ exact Hr | ].
    destruct (includes (getIndex width lx ly) (pre ++ [getIndex width cx cy]))
      eqn:Einc; [ exact Hr | ].
    apply IH; [ exact Eout | ].
    destruct Hr as [[rest Hf] Hc Hn Hg].
    constructor.
    + rewrite Hf. now exists (rest ++ [getIndex width lx ly]).
    + apply chain_snoc; [ exact Hc | ].
      unfold below.
      rewrite <- (getHeight_inside _ _ Eout), <- (getHeight_inside _ _ Hin).
      eapply lowestNeighbor_moves_down; eassumption.
    + apply NoDup_app; [ exact Hn | repeat constructor; simpl; tauto | ].
      intros a Ha [<-|[]]. revert Ha. now apply includes_false.
    + apply Forall_app. split; [ exact Hg | ].
      apply Forall_cons; [ now apply inside_index | constructor ].
Qed.

Lemma walk_traced_start (fuel : nat) (x y : Z) :
  outside width height x y = false ->
  tracedRiver noiseMap width height (getIndex width x y)
    (fst (walk noiseMap width height fuel [getIndex width x y] x y)).
Proof.
  intros Hin. apply (walk_traced fuel [] x y); [ exact Hin | ].
  constructor; simpl.
  - now exists [].
  - exact I.
  - apply NoDup_cons; [ simpl; tauto | constructor ].
  - apply Forall_cons; [ now apply inside_index | constructor ].
Qed.

(** The start-point search leaves the loop at a point that passed
    the height test, or with its 100 samples used. *)
Lemma searchStart_exit (fuel : nat) :
  forall state n,
    99 <= Z.of_nat fuel + n ->
    let s := searchStart noiseMap width height fuel state n in
    100 <= attempts s \/
    unsuitable noiseMap width height (startX s) (startY s) = false.
Proof.
  induction fuel as [|fuel IH]; intros state n Hn; simpl.
  - destruct (unsuitable _ _ _ _ _) eqn:Eu; simpl.
    + destruct (n + 1 <? 100) eqn:El; simpl.
      * apply Z.ltb_lt in El. lia.
      * left. apply Z.ltb_ge in El. exact El.
    + now right.
  - destruct (unsuitable _ _ _ _ _) eqn:Eu; simpl.
    + destruct (n + 1 <? 100) eqn:El; simpl.
      * apply IH. lia.
      * left. apply Z.ltb_ge in El. exact El.
    + now right.
Qed.

Lemma suitable_inside (x y : Z) :
  unsuitable noiseMap width height x y = false ->
  outside width height x y = false.
Proof.
  unfold unsuitable, getHeight.
  destruct (outside width height x y); [ | reflexivity ].
  rewrite orb_false_iff. intros [_ H]. discriminate H.
Qed.

Variable minRiverLength : Z.

(** A river pushed by one iteration of the outer loop. *)
Lemma riverAttempt_traced (state state' : Z) (river : list Z) :
  riverAttempt noiseMap width height minRiverLength state = (Some river, state') ->
  minRiverLength <= Z.of_nat (length river) /\
  exists x y,
    unsuitable noiseMap width height x y = false /\
    tracedRiver noiseMap width height (getIndex width x y) river.
Proof.
  unfold riverAttempt.
  destruct (random state) as [r0 s0]. destruct (random s0) as [r1 s1].
  pose proof (searchStart_exit 99 s1 0 ltac:(simpl; lia)) as Hs.
  cbv zeta in Hs.
  destruct (searchStart noiseMap width height 99 s1 0) as [sx sy att st].
  cbn [attempts startX startY startState] in *.
  destruct (att >=? 100) eqn:Ea; [ discriminate | ].
  rewrite Z.geb_leb in Ea. apply Z.leb_gt in Ea.
  destruct Hs as [Hs|Hs]; [ lia | ].
  pose proof (walk_traced_start 1000 sx sy (suitable_inside _ _ Hs)) as Hw.
  revert Hw.
  generalize (fst (walk noiseMap width height 1000 [getIndex width sx sy] sx sy)).
  intros rv Hw.
  destruct (Z.of_nat (length rv) >=? minRiverLength) eqn:El; [ | discriminate ].
  intros H. injection H as <- <-. split.
  - rewrite Z.geb_leb in El. now apply Z.leb_le in El.
  - now exists sx, sy.
Qed.

Lemma riverLoop_Forall (P : list Z -> Prop) :
  (forall state state' river,
      riverAttempt noiseMap width height minRiverLength state = (Some river, state') ->
      P river) ->
  forall n state rivers,
    Forall P rivers ->
    Forall P (riverLoop noiseMap width height minRiverLength n state rivers).
Proof.
  intros HP. induction n as [|n IH]; intros state rivers Hr; cbn [riverLoop].
  - exact Hr.
  - destruct (riverAttempt noiseMap width height minRiverLength state)
      as [[river|] state'] eqn:E; apply IH.
    + apply Forall_app. split; [ exact Hr | ].
      repeat constructor. eapply HP. exact E.
    + exact Hr.
Qed.

End RiverProps.

(** ** generateRivers: the properties of the returned paths *)

Lemma chain_nth {A : Type} (R : A -> A -> Prop) (l : list A) :
  chain R l ->
  forall i a b, nth_error l i = Some a -> nth_error l (S i) = Some b -> R a b.
Proof.
  induction l as [|x l IH]; intros Hc i a b Ha Hb.
  - destruct i; discriminate.
  - destruct l as [|x' l]; [ destruct i; discriminate | ].
    destruct Hc as [Hx Hc]. destruct i as [|i].
    + simpl in Ha, Hb. congruence.
    + exact (IH Hc i a b Ha Hb).
Qed.

Lemma generateRivers_Forall (P : list Z -> Prop) (noiseMap : list num)
      (width height seed riverCount minRiverLength : Z) :
  (forall state state' river,
      riverAttempt noiseMap width height minRiverLength state = (Some river, state') ->
      P river) ->
  Forall P (generateRivers noiseMap width height seed riverCount minRiverLength).
Proof.
  intros HP. unfold generateRivers. apply riverLoop_Forall; [ exact HP | constructor ].
Qed.

(** Every returned path is a traced river of at least [minRiverLength]
    points whose first point passed the height test of the search. *)
Lemma generateRivers_traced (noiseMap : list num)
      (width height seed riverCount minRiverLength : Z) (river : list Z) :
  In river (generateRivers noiseMap width height seed riverCount minRiverLength) ->
  minRiverLength <= Z.of_nat (length river) /\
  exists x y,
    unsuitable noiseMap width height x y = false /\
    tracedRiver noiseMap width height (getIndex width x y) river.
Proof.
  revert river. apply Forall_forall. apply generateRivers_Forall.
  intros state state' river. apply riverAttempt_traced.
Qed.

(** C3. In every path returned by [generateRivers], the height at each
    stored index is at most the height at the index stored just before
    it; this holds at every step, the last one included. *)
Theorem river_monotonic_descent (noiseMap : list num)
        (width height seed riverCount minRiverLength : Z)
        (river : list Z) (i : nat) (a b : Z) :
  In river (generateRivers noiseMap width height seed riverCount minRiverLength) ->
  nth_error river i = Some a ->
  nth_error river (S i) = Some b ->
  num_le (lookup noiseMap b) (lookup noiseMap a) = true.
Proof.
  intros Hin Ha Hb.
  destruct (generateRivers_traced _ _ _ _ _ _ _ Hin) as [_ (x & y & _ & Ht)].
  apply num_lt_le.
  exact (chain_nth _ _ (traced_chain _ _ _ _ _ Ht) i a b Ha Hb).
Qed.

Lemma river_monotonic_descent_witness :
  In [10; 7] (generateRivers ridgeField 4 4 1 1 2) /\
  num_le (lookup ridgeField 7) (lookup ridgeField 10) = true.
Proof.
  assert (H : In [10; 7] (generateRivers ridgeField 4 4 1 1 2))
    by (vm_compute; left; reflexivity).
  split; [ exact H | ].
  apply (river_monotonic_descent ridgeField 4 4 1 1 2 [10; 7] 0 10 7 H);
    reflexivity.
Defined.

(** The descent is strict. *)
Lemma river_strict_descent (noiseMap : list num)
      (width height seed riverCount minRiverLength : Z)
      (river : list Z) (i : nat) (a b : Z) :
  In river (generateRivers noiseMap width height seed riverCount minRiverLength) ->
  nth_error river i = Some a ->
  nth_error river (S i) = Some b ->
  num_lt (lookup noiseMap b) (lookup noiseMap a) = true.
Proof.
  intros Hin Ha Hb.
  destruct (generateRivers_traced _ _ _ _ _ _ _ Hin) as [_ (x & y & _ & Ht)].
  exact (chain_nth _ _ (traced_chain _ _ _ _ _ Ht) i a b Ha Hb).
Qed.

(** C4. Every path returned by [generateRivers] has at least
    [minRiverLength] points, no index twice, and only indices of
    [[0, width * height)]. *)
Theorem river_validity (noiseMap : list num)
        (width height seed riverCount minRiverLength : Z) (river : list Z) :
  In river (generateRivers noiseMap width height seed riverCount minRiverLength) ->
  minRiverLength <= Z.of_nat (length river) /\
  NoDup river /\
  (forall index, In index river -> 0 <= index < width * height).
Proof.
  intros Hin.
  destruct (generateRivers_traced _ _ _ _ _ _ _ Hin) as [Hlen (x & y & _ & Ht)].
  split; [ exact Hlen | split ].
  - exact (traced_nodup _ _ _ _ _ Ht).
  - apply Forall_forall. exact (traced_grid _ _ _ _ _ Ht).
Qed.

Lemma river_validity_witness :
  In [10; 7] (generateRivers ridgeField 4 4 1 1 2) /\
  2 <= Z.of_nat (length [10; 7]) /\
  NoDup [10; 7] /\
  (forall index, In index [10; 7] -> 0 <= index < 4 * 4).
Proof.
  assert (H : In [10; 7] (generateRivers ridgeField 4 4 1 1 2))
    by (vm_compute; left; reflexivity).
  split; [ exact H | ].
  exact (river_validity ridgeField 4 4 1 1 2 [10; 7] H).
Defined.

(** ** generateRivers: the walk on a field of heights in [[0, 1]] *)

Section UnitField.

Variable noiseMap : list num.
Variables width height : Z.
Hypothesis unit_field : Forall unitHeight noiseMap.

(** No height read by the tracer is above 1. *)
Lemma getHeight_not_above (x y : Z) :
  num_lt (Fin 1) (getHeight noiseMap width height x y) = false.
Proof.
  unfold getHeight. destruct (outside width height x y).
  - apply num_lt_irrefl.
  - destruct (lookup_Forall unitHeight noiseMap (getIndex width x y) unit_field)
      as [-> | H]; [ reflexivity | now apply unitHeight_not_above ].
Qed.

Lemma scanNeighbor_inside (cx cy ny nx : Z) (low : Z * Z * num) :
  insideInv (outside width height) cx cy low ->
  insideInv (outside width height) cx cy
            (scanNeighbor noiseMap width height cx cy ny nx low).
Proof.
  destruct low as [[lx ly] lh]. intros [Hh Hc]. unfold scanNeighbor.
  destruct ((nx =? 0) && (ny =? 0)); [ now split | ].
  destruct (num_lt (getHeight noiseMap width height (cx + nx) (cy + ny)) lh)
    eqn:E; [ | now split ].
  split; [ apply getHeight_not_above | right ].
  destruct (outside width height (cx + nx) (cy + ny)) eqn:Eout; [ | reflexivity ].
  unfold getHeight in E. rewrite Eout in E. congruence.
Qed.

Lemma lowestNeighbor_inside (cx cy : Z) :
  insideInv (outside width height) cx cy
            (lowestNeighbor noiseMap width height cx cy).
Proof.
  unfold lowestNeighbor.
  apply fold_left_preserves.
  - intros low ny Hlow. apply fold_left_preserves; [ | exact Hlow ].
    intros low' nx Hlow'. now apply scanNeighbor_inside.
  - split; [ apply getHeight_not_above | now left ].
Qed.

Lemma walk_stays_inside (fuel : nat) :
  forall river cx cy,
    snd (walk noiseMap width height fuel river cx cy) <> OutOfBounds.
Proof.
  induction fuel as [|fuel IH]; intros river cx cy; simpl; [ discriminate | ].
  destruct (Z.of_nat (length river) <? 1000); [ | discriminate ].
  pose proof (lowestNeighbor_inside cx cy) as Hin.
  destruct (lowestNeighbor noiseMap width height cx cy) as [[lx ly] lh].
  destruct ((lx =? cx) && (ly =? cy)) eqn:Emove; [ discriminate | ].
  destruct (outside width height lx ly) eqn:Eout.
  - exfalso. destruct Hin as [_ [[-> ->]|Hin]].
    + now rewrite !Z.eqb_refl in Emove.
    + congruence.
  - destruct (includes (getIndex width lx ly) river); [ discriminate | apply IH ].
Qed.

End UnitField.

(** C7. On a height field whose values all lie in [[0, 1]], the scan of
    the neighbours never selects a point outside the grid as the
    downhill step, the walk never ends in its out-of-bounds branch, and
    every index stored in a returned path is an index of the grid. *)
Theorem out_of_bounds_never_chosen (noiseMap : list num) (width height : Z) :
  Forall unitHeight noiseMap ->
  (forall currentX currentY lowestX lowestY lowestHeight,
      lowestNeighbor noiseMap width height currentX currentY
      = (lowestX, lowestY, lowestHeight) ->
      (lowestX = currentX /\ lowestY = currentY) \/
      outside width height lowestX lowestY = false) /\
  (forall fuel river currentX currentY,
      snd (walk noiseMap width height fuel river currentX currentY) <> OutOfBounds) /\
  (forall seed riverCount minRiverLength river index,
      In river (generateRivers noiseMap width height seed riverCount minRiverLength) ->
      In index river -> 0 <= index < width * height).
Proof.
  intros Hunit. split; [ | split ].
  - intros cx cy lx ly lh E.
    pose proof (lowestNeighbor_inside noiseMap width height Hunit cx cy) as H.
    rewrite E in H. exact (proj2 H).
  - intros fuel river cx cy. now apply walk_stays_inside.
  - intros seed riverCount minRiverLength river index Hr Hi.
    destruct (generateRivers_traced _ _ _ _ _ _ _ Hr) as [_ (x & y & _ & Ht)].
    pose proof (traced_grid _ _ _ _ _ Ht) as Hg.
    rewrite Forall_forall in Hg. exact (Hg index Hi).
Qed.

Lemma ridgeField_unit : Forall unitHeight ridgeField.
Proof.
  unfold ridgeField, ridgeRow.
  repeat (apply Forall_cons; [ split; discriminate | ]).
  constructor.
Defined.

Lemma out_of_bounds_never_chosen_witness :
  Forall unitHeight ridgeField /\
  snd (walk ridgeField 4 4 1000 [10] 2 2) <> OutOfBounds.
Proof.
  split; [ exact ridgeField_unit | ].
  exact (proj1 (proj2 (out_of_bounds_never_chosen ridgeField 4 4 ridgeField_unit))
               1000%nat [10] 2 2).
Defined.

(** Without the bound on the heights the branch can be taken: from a
    cell of height 2 the walk steps towards a point outside the grid. *)
Lemma out_of_bounds_reached_above_one :
  walk [Fin 2] 1 1 1000 [0] 0 0 = ([0], OutOfBounds).
Proof. vm_compute. reflexivity. Qed.

(** ** generateRivers: the start-point search *)

(** A height that passes the test of the search and is a number lies
    in [[0.6, 0.8]]. *)
Lemma passed_test_in_band (v : num) :
  num_lt v (Fin (6 # 10)) = false ->
  num_gt v (Fin (8 # 10)) = false ->
  v = NaN \/ sourceHeight v.
Proof.
  unfold num_gt. destruct v as [q| | |]; simpl; try discriminate; auto.
  destruct (Qlt_le_dec q (6 # 10)), (Qlt_le_dec (8 # 10) q); try discriminate.
  intros _ _. right. now split.
Qed.

(** The first index of every returned path has a height that passed
    the test: it lies in [[0.6, 0.8]] when it is a number. *)
Lemma river_source_height (noiseMap : list num)
      (width height seed riverCount minRiverLength : Z) (river : list Z) :
  In river (generateRivers noiseMap width height seed riverCount minRiverLength) ->
  exists first rest,
    river = first :: rest /\
    (lookup noiseMap first = NaN \/ sourceHeight (lookup noiseMap first)).
Proof.
  intros Hin.
  destruct (generateRivers_traced _ _ _ _ _ _ _ Hin) as [_ (x & y & Hs & Ht)].
  destruct (traced_first _ _ _ _ _ Ht) as [rest ->].
  exists (getIndex width x y), rest. split; [ reflexivity | ].
  pose proof (suitable_inside _ _ _ _ _ Hs) as Hi.
  unfold unsuitable in Hs. rewrite (getHeight_inside _ _ _ _ _ Hi) in Hs.
  apply orb_false_iff in Hs. destruct Hs as [H1 H2].
  now apply passed_test_in_band.
Qed.

(** An attempt whose search used its 100 samples pushes no river,
    whatever the last sample was. *)
Lemma riverAttempt_skips (noiseMap : list num) (width height minRiverLength : Z)
      (state : Z) :
  100 <= attempts (searchStart noiseMap width height 99
                               (snd (random (snd (random state)))) 0) ->
  fst (riverAttempt noiseMap width height minRiverLength state) = None.
Proof.
  unfold riverAttempt.
  destruct (random state) as [r0 s0]. cbn [snd].
  destruct (random s0) as [r1 s1]. cbn [snd].
  generalize (searchStart noiseMap width height 99 s1 0). intros s Hs.
  replace (attempts s >=? 100) with true; [ reflexivity | ].
  symmetry. rewrite Z.geb_leb. now apply Z.leb_le.
Qed.

(** C6. On the field [lonePeak] with seed 1, the 100th sample of the
    search is the cell (7, 1), whose height 0.7 lies in [[0.6, 0.8]];
    the loop leaves with [attempts = 100], the attempt is skipped and
    no river is returned. *)
Theorem hundredth_sample_skipped :
  let s := searchStart lonePeak 16 16 99 (snd (random (snd (random 1)))) 0 in
  attempts s = 100 /\
  startX s = 7 /\ startY s = 1 /\
  getHeight lonePeak 16 16 (startX s) (startY s) = Fin (7 # 10) /\
  unsuitable lonePeak 16 16 (startX s) (startY s) = false /\
  generateRivers lonePeak 16 16 1 1 1 = [].
Proof. vm_compute. repeat split. Qed.

(** The same field when the peak is found one sample earlier is traced:
    the walk from (7, 1) is a river of two points. *)
Lemma lonePeak_walk : walk lonePeak 16 16 1000 [23] 7 1 = ([23; 6], Sink).
Proof. vm_compute. reflexivity. Qed.

(** ** generateRivers: runs that differ in [riverCount] *)

Section RiverCount.

Variable noiseMap : list num.
Variables width height minRiverLength : Z.

(** The outer loop only adds at the end of [rivers]. *)
Lemma riverLoop_extends (n : nat) :
  forall state rivers,
  exists later,
    riverLoop noiseMap width height minRiverLength n state rivers = rivers ++ later.
Proof.
  induction n as [|n IH]; intros state rivers; cbn [riverLoop].
  - exists []. now rewrite app_nil_r.
  - destruct (riverAttempt noiseMap width height minRiverLength state)
      as [[river|] state'].
    + destruct (IH state' (rivers ++ [river])) as [later ->].
      exists ([river] ++ later). now rewrite app_assoc.
    + apply IH.
Qed.

(** A longer run repeats the attempts of a shorter one and goes on. *)
Lemma riverLoop_prefix (n k : nat) :
  forall state rivers,
  exists later,
    riverLoop noiseMap width height minRiverLength (n + k) state rivers
    = riverLoop noiseMap width height minRiverLength n state rivers ++ later.
Proof.
  induction n as [|n IH]; intros state rivers; cbn [riverLoop Nat.add].
  - apply riverLoop_extends.
  - destruct (riverAttempt noiseMap width height minRiverLength state)
      as [[river|] state']; apply IH.
Qed.

End RiverCount.

(** The output for a smaller [riverCount] is a prefix of the output
    for a larger one. *)
Lemma generateRivers_prefix (noiseMap : list num)
      (width height seed minRiverLength small large : Z) :
  small <= large ->
  exists later,
    generateRivers noiseMap width height seed large minRiverLength
    = generateRivers noiseMap width height seed small minRiverLength ++ later.
Proof.
  intros Hle. unfold generateRivers.
  destruct (Z.le_gt_cases 0 small) as [Hs|Hs].
  - replace (Z.to_nat large) with (Z.to_nat small + Z.to_nat (large - small))%nat
      by lia.
    apply riverLoop_prefix.
  - replace (Z.to_nat small) with 0%nat by lia. cbn [riverLoop app].
    eexists. reflexivity.
Qed.

(** C8, as the claim states it, fails: on [ridgeField] with seed 1 and
    [minRiverLength = 2] the second of the first three attempts is
    discarded and the fourth is kept, so the first 3 rivers of the
    5-river run are not the output of the 3-river run. *)
Lemma first_three_of_five_differ :
  generateRivers ridgeField 4 4 1 3 2 = [[10; 7]; [14; 11]] /\
  generateRivers ridgeField 4 4 1 5 2 = [[10; 7]; [14; 11]; [10; 7]] /\
  firstn 3 (generateRivers ridgeField 4 4 1 5 2)
  <> generateRivers ridgeField 4 4 1 3 2.
Proof.
  vm_compute. repeat split. discriminate.
Qed.

(** C8, amended. For any height field, dimensions, seed and
    [minRiverLength], the output of the run with [riverCount = 3] is a
    prefix of the output of the run with [riverCount = 5]: the rivers
    kept from the first 3 attempts, in attempt order, are the same in
    both runs. *)
Theorem three_rivers_prefix_of_five (noiseMap : list num)
        (width height seed minRiverLength : Z) :
  let three := generateRivers noiseMap width height seed 3 minRiverLength in
  let five := generateRivers noiseMap width height seed 5 minRiverLength in
  (exists later, five = three ++ later) /\
  firstn (length three) five = three.
Proof.
  cbv zeta.
  destruct (generateRivers_prefix noiseMap width height seed minRiverLength 3 5
                                  ltac:(lia)) as [later E].
  rewrite E.
  generalize (generateRivers noiseMap width height seed 3 minRiverLength).
  intros three. split; [ now exists later | ].
  rewrite firstn_app, Nat.sub_diag, firstn_all. cbn [firstn].
  apply app_nil_r.
Qed.

(** ** placeCities *)

(** [sqrt_lt] is the comparison of the real square root. *)
Lemma sqrt_lt_real (d2 : Z) (t : Q) :
  0 <= d2 -> sqrt_lt d2 t = true <-> (sqrt (IZR d2) < Q2R t)%R.
Proof.
  intros Hd. unfold sqrt_lt.
  assert (Hd' : (0 <= IZR d2)%R) by now apply IZR_le.
  assert (Hinj : Q2R (inject_Z d2) = IZR d2)
    by (unfold Q2R, inject_Z; simpl; lra).
  destruct (Qlt_le_dec 0 t) as [Ht|Ht].
  - apply Qlt_Rlt in Ht. rewrite RMicromega.Q2R_0 in Ht.
    destruct (Qlt_le_dec (inject_Z d2) (t * t)) as [Hlt|Hge].
    + split; [ intros _ | reflexivity ].
      apply Qlt_Rlt in Hlt. rewrite Q2R_mult, Hinj in Hlt.
      rewrite <- (sqrt_square (Q2R t)) by lra.
      apply sqrt_lt_1; nra.
    + split; [ discriminate | intros H; exfalso ].
      apply Qle_Rle in Hge. rewrite Q2R_mult, Hinj in Hge.
      rewrite <- (sqrt_square (Q2R t)) in H by lra.
      apply sqrt_lt_0 in H; nra.
  - split; [ discriminate | intros H; exfalso ].
    apply Qle_Rle in Ht. rewrite RMicromega.Q2R_0 in Ht.
    pose proof (sqrt_pos (IZR d2)). lra.
Qed.

Lemma Q2R_tenth (width : Z) : Q2R (inject_Z width / 10) = (IZR width / 10)%R.
Proof.
  rewrite Q2R_div by discriminate.
  unfold Q2R, inject_Z. simpl. lra.
Qed.

(** A city that the test does not find too close is at least
    [width / 10] away. *)
Lemma closeTo_false_distance (width : Z) (a b : City.t) :
  closeTo width (City.x b) (City.y b) a = false ->
  (IZR width / 10 <= distance a b)%R.
Proof.
  unfold closeTo, distance. intros H.
  apply Rnot_lt_le. intros Hlt.
  rewrite <- Q2R_tenth in Hlt.
  apply sqrt_lt_real in Hlt; [ congruence | nia ].
Qed.

Lemma distance_sym (a b : City.t) : distance a b = distance b a.
Proof.
  unfold distance. f_equal. f_equal. ring.
Qed.

Lemma ForallOrdPairs_snoc {A : Type} (R : A -> A -> Prop) (l : list A) (c : A) :
  ForallOrdPairs R l -> Forall (fun a => R a c) l -> ForallOrdPairs R (l ++ [c]).
Proof.
  induction 1 as [|a l Ha Hl IH]; intros Hc; simpl.
  - constructor; constructor.
  - inversion Hc as [|? ? Hac Hlc]; subst.
    constructor; [ | now apply IH ].
    apply Forall_app. split; [ exact Ha | now constructor ].
Qed.

Lemma ForallOrdPairs_nth {A : Type} (R : A -> A -> Prop) (l : list A) :
  ForallOrdPairs R l ->
  forall i j a b,
    (i < j)%nat -> nth_error l i = Some a -> nth_error l j = Some b -> R a b.
Proof.
  induction 1 as [|x l Hx Hl IH]; intros i j a b Hij Ha Hb.
  - destruct i; discriminate.
  - destruct j as [|j]; [ lia | ]. simpl in Hb.
    destruct i as [|i]; simpl in Ha.
    + injection Ha as <-. rewrite Forall_forall in Hx. apply Hx.
      eapply nth_error_In. exact Hb.
    + apply (IH i j); [ lia | assumption | assumption ].
Qed.

Lemma tooClose_false (width x y : Z) (cities : list City.t) :
  tooClose width x y cities = false ->
  Forall (fun a => closeTo width x y a = false) cities.
Proof.
  unfold tooClose. induction cities as [|c cities IH]; simpl; intros H.
  - constructor.
  - apply orb_false_iff in H. destruct H as [Hc H]. constructor; auto.
Qed.

(** The draws of a generator in a non-negative state lie in [[0, 1)]
    and leave it in a non-negative state. *)
Lemma random_range (state : Z) :
  0 <= state ->
  (0 <= fst (random state) < 1)%Q /\ 0 <= snd (random state).
Proof.
  intros Hs. unfold random. cbv zeta. cbn [fst snd].
  pose proof (Z.rem_bound_pos (state * 1664525 + 1013904223) 4294967296
                              ltac:(lia) ltac:(lia)) as [Hlo Hhi].
  set (s := Z.rem (state * 1664525 + 1013904223) 4294967296) in *.
  repeat split.
  - unfold Qle. simpl. lia.
  - unfold Qlt. simpl. lia.
  - exact Hlo.
Qed.

Section CityProps.

Variable noiseMap : list num.
Variable rivers : list (list Z).
Variables width height cityCount : Z.

(** An invariant of [(state, cities)] that every draw keeps and that
    the push of an accepted city keeps holds of the list returned. *)
Lemma placeLoop_invariant (I : Z -> list City.t -> Prop) :
  (forall state cities, I state cities -> I (snd (random state)) cities) ->
  (forall state cities x y,
      I state cities ->
      tooClose width x y cities = false ->
      I (snd (random state))
        (cities ++
           [City.mk x y
              (citySize (fst (random state))
                        (isNearRiver rivers width height x y 3)
                        (lookup noiseMap (y * width + x)))])) ->
  forall fuel state cities attempts,
    I state cities ->
    exists state',
      I state' (placeLoop noiseMap rivers width height cityCount
                          fuel state cities attempts).
Proof.
  intros Hdraw Hpush.
  induction fuel as [|fuel IH]; intros state cities attempts HI; cbn [placeLoop].
  - now exists state.
  - destruct ((Z.of_nat (length cities) <? cityCount) && (attempts <? cityCount * 10));
      [ | now exists state ].
    pose proof (Hdraw _ _ HI) as H1.
    destruct (random state) as [r1 s1]. cbn [snd] in H1.
    pose proof (Hdraw _ _ H1) as H2.
    destruct (random s1) as [r2 s2]. cbn [snd] in H2.
    set (x := floorMul r1 width). set (y := floorMul r2 height).
    destruct (num_lt (lookup noiseMap (y * width + x)) (Fin (3 # 10))
              || num_gt (lookup noiseMap (y * width + x)) (Fin (7 # 10)));
      [ now apply IH | ].
    assert (H3 : exists skip s3,
               (if isNearRiver rivers width height x y 3 then (false, s2)
                else let (r3, state0) := random s2 in
                     (if Qlt_le_dec r3 (7 # 10) then true else false, state0))
               = (skip, s3) /\ I s3 cities).
    { destruct (isNearRiver rivers width height x y 3).
      - exists false, s2. now split.
      - pose proof (Hdraw _ _ H2) as H3.
        destruct (random s2) as [r3 s3]. cbn [snd] in H3.
        eexists _, s3. split; [ reflexivity | exact H3 ]. }
    destruct H3 as (skip & s3 & -> & H3).
    destruct skip; [ now apply IH | ].
    destruct (tooClose width x y cities) eqn:Eclose; [ now apply IH | ].
    pose proof (Hpush _ _ x y H3 Eclose) as H4.
    destruct (random s3) as [r4 s4]. cbn [fst snd] in H4.
    now apply IH.
Qed.

Lemma placeLoop_spaced (fuel : nat) (state : Z) (cities : list City.t)
      (attempts : Z) :
  spaced width cities ->
  spaced width (placeLoop noiseMap rivers width height cityCount
                          fuel state cities attempts).
Proof.
  intros Hs.
  destruct (placeLoop_invariant (fun _ cs => spaced width cs)
              ltac:(auto)
              ltac:(intros ? cs x y Hcs Hc; apply ForallOrdPairs_snoc;
                    [ exact Hcs | exact (tooClose_false _ _ _ _ Hc) ])
              fuel state cities attempts Hs) as [_ H].
  exact H.
Qed.

Lemma placeLoop_sizes (fuel : nat) (state : Z) (cities : list City.t)
      (attempts : Z) :
  0 <= state ->
  Forall (sizeRule noiseMap rivers width height) cities ->
  Forall (sizeRule noiseMap rivers width height)
         (placeLoop noiseMap rivers width height cityCount
                    fuel state cities attempts).
Proof.
  intros Hs Hc.
  destruct (placeLoop_invariant
              (fun st cs => 0 <= st /\
                            Forall (sizeRule noiseMap rivers width height) cs))
    with (fuel := fuel) (state := state) (cities := cities) (attempts := attempts)
    as [st' [_ H]].
  - intros st cs [Hst Hcs]. split; [ apply random_range, Hst | exact Hcs ].
  - intros st cs x y [Hst Hcs] _.
    destruct (random_range st Hst) as [Hr Hst'].
    split; [ exact Hst' | ].
    apply Forall_app. split; [ exact Hcs | ].
    apply Forall_cons; [ | constructor ].
    exists (fst (random st)). split; [ exact Hr | reflexivity ].
  - now split.
  - exact H.
Qed.

End CityProps.

Lemma citySize_range (r : Q) (nearRiver : bool) (terrainHeight : num) :
  (0 <= r < 1)%Q -> (1 <= citySize r nearRiver terrainHeight < 9 # 2)%Q.
Proof.
  intros [Hlo Hhi]. unfold citySize.
  destruct nearRiver,
    (num_gt terrainHeight (Fin (4 # 10)) && num_lt terrainHeight (Fin (6 # 10)));
    cbv beta zeta iota; split; Lqa.lra.
Qed.

Lemma citySize_sum (r : Q) (nearRiver : bool) (terrainHeight : num) :
  (citySize r nearRiver terrainHeight
   == 1 + r * 2
      + (if nearRiver then 1 else 0)
      + (if num_gt terrainHeight (Fin (4 # 10)) && num_lt terrainHeight (Fin (6 # 10))
         then 1 # 2 else 0))%Q.
Proof.
  unfold citySize.
  destruct nearRiver,
    (num_gt terrainHeight (Fin (4 # 10)) && num_lt terrainHeight (Fin (6 # 10)));
    cbv beta zeta iota; ring.
Qed.

(** C5. Any two cities at different positions of the sequence returned
    by [placeCities] are at Euclidean distance at least [width / 10]. *)
Theorem city_spacing (noiseMap : list num) (rivers : list (list Z))
        (width height seed cityCount : Z) (i j : nat) (a b : City.t) :
  i <> j ->
  nth_error (placeCities noiseMap rivers width height seed cityCount) i = Some a ->
  nth_error (placeCities noiseMap rivers width height seed cityCount) j = Some b ->
  (IZR width / 10 <= distance a b)%R.
Proof.
  intros Hij Ha Hb.
  assert (Hs : spaced width (placeCities noiseMap rivers width height seed cityCount))
    by (apply placeLoop_spaced; constructor).
  destruct (Nat.lt_total i j) as [Hlt|[Heq|Hgt]]; [ | contradiction | ].
  - apply closeTo_false_distance.
    exact (ForallOrdPairs_nth _ _ Hs i j a b Hlt Ha Hb).
  - rewrite distance_sym. apply closeTo_false_distance.
    exact (ForallOrdPairs_nth _ _ Hs j i b a Hgt Hb Ha).
Qed.

Lemma city_spacing_witness :
  exists a b,
    nth_error (placeCities plain [] 20 20 1 3) 0 = Some a /\
    nth_error (placeCities plain [] 20 20 1 3) 1 = Some b /\
    (City.x a, City.y a) = (7, 5) /\
    (City.x b, City.y b) = (3, 6) /\
    (IZR 20 / 10 <= distance a b)%R.
Proof.
  eexists. eexists.
  split; [ vm_compute; reflexivity | ].
  split; [ vm_compute; reflexivity | ].
  split; [ reflexivity | ].
  split; [ reflexivity | ].
  apply (city_spacing plain [] 20 20 1 3 0 1);
    [ discriminate | vm_compute; reflexivity | vm_compute; reflexivity ].
Defined.

(** C10, amended. For a non-negative seed, every city returned by
    [placeCities] has a size in [[1, 4.5)]: it is 1 plus twice a draw of
    [[0, 1)], plus 1 when the city is near a river, plus 0.5 when the
    terrain height is strictly between 0.4 and 0.6. *)
Theorem city_size_range (noiseMap : list num) (rivers : list (list Z))
        (width height seed cityCount : Z) (c : City.t) :
  0 <= seed ->
  In c (placeCities noiseMap rivers width height seed cityCount) ->
  (1 <= City.size c < 9 # 2)%Q /\
  exists r : Q,
    (0 <= r < 1)%Q /\
    let terrainHeight := lookup noiseMap (City.y c * width + City.x c) in
    (City.size c
     == 1 + r * 2
        + (if isNearRiver rivers width height (City.x c) (City.y c) 3
           then 1 else 0)
        + (if num_gt terrainHeight (Fin (4 # 10))
              && num_lt terrainHeight (Fin (6 # 10))
           then 1 # 2 else 0))%Q.
Proof.
  intros Hseed Hin.
  assert (H : Forall (sizeRule noiseMap rivers width height)
                     (placeCities noiseMap rivers width height seed cityCount))
    by (apply placeLoop_sizes; [ exact Hseed | constructor ]).
  rewrite Forall_forall in H. destruct (H c Hin) as (r & Hr & Hsize).
  split.
  - rewrite Hsize. now apply citySize_range.
  - exists r. split; [ exact Hr | ].
    cbv zeta. rewrite Hsize. apply citySize_sum.
Qed.

Lemma city_size_range_witness :
  exists c,
    In c (placeCities plain [] 20 20 1 3) /\
    (City.x c, City.y c) = (7, 5) /\
    (1 <= City.size c < 9 # 2)%Q.
Proof.
  eexists.
  assert (H : forall c l, placeCities plain [] 20 20 1 3 = c :: l ->
                          In c (placeCities plain [] 20 20 1 3))
    by (intros c l ->; now left).
  split; [ eapply H; vm_compute; reflexivity | ].
  split; [ reflexivity | ].
  refine (proj1 (city_size_range plain [] 20 20 1 3 _ _ _)).
  - discriminate.
  - eapply H. vm_compute. reflexivity.
Defined.

(** C10, as the claim states it, fails: with a negative seed the
    remainder that [createRandom] takes is negative, and so are the
    draws; on [ridgeField] with the river [[0]] and seed -1000 a city is
    returned whose size is below 1. *)
Lemma negative_seed_small_city :
  exists c,
    In c (placeCities ridgeField [[0]] 4 4 (-1000) 2) /\ (City.size c < 1)%Q.
Proof.
  eexists. split; [ vm_compute; left; reflexivity | vm_compute; reflexivity ].
Qed.

(** ** The height field is left as it was *)

(** A computation that only reads: it returns [v] and the array it was given. *)
Lemma foldM_reads {A B : Type} (f : A -> B -> Heap.M A) (g : A -> B -> A)
      (h : list num) :
  (forall a b, f a b h = (g a b, h)) ->
  forall l a, Heap.foldM f l a h = (fold_left g l a, h).
Proof.
  intros Hf. induction l as [|b l IH]; intros a; simpl.
  - reflexivity.
  - unfold Heap.bind. rewrite Hf. apply IH.
Qed.

Section ReadOnly.

Variable noiseMap : list num.
Variables width height : Z.

Lemma getHeightM_reads (x y : Z) :
  getHeightM width height x y noiseMap
  = (getHeight noiseMap width height x y, noiseMap).
Proof.
  unfold getHeightM, getHeight. now destruct (outside width height x y).
Qed.

Lemma unsuitableM_reads (x y : Z) :
  unsuitableM width height x y noiseMap
  = (unsuitable noiseMap width height x y, noiseMap).
Proof.
  unfold unsuitableM, unsuitable, Heap.bind. rewrite getHeightM_reads.
  destruct (num_lt (getHeight noiseMap width height x y) (Fin (6 # 10)));
    [ reflexivity | ].
  now rewrite getHeightM_reads.
Qed.

Lemma searchStartM_reads (fuel : nat) :
  forall state n,
    searchStartM width height fuel state n noiseMap
    = (searchStart noiseMap width height fuel state n, noiseMap).
Proof.
  induction fuel as [|fuel IH]; intros state n;
    cbn [searchStartM searchStart];
    destruct (random state) as [r1 s1]; destruct (random s1) as [r2 s2];
    unfold Heap.bind; rewrite unsuitableM_reads;
    destruct (unsuitable noiseMap width height _ _ && (n + 1 <? 100));
    try reflexivity.
  apply IH.
Qed.

Lemma scanNeighborM_reads (cx cy ny nx : Z) (low : Z * Z * num) :
  scanNeighborM width height cx cy ny nx low noiseMap
  = (scanNeighbor noiseMap width height cx cy ny nx low, noiseMap).
Proof.
  unfold scanNeighborM, scanNeighbor.
  destruct ((nx =? 0) && (ny =? 0)); [ reflexivity | ].
  unfold Heap.bind. rewrite getHeightM_reads.
  destruct low as [[lx ly] lh].
  now destruct (num_lt (getHeight noiseMap width height (cx + nx) (cy + ny)) lh).
Qed.

Lemma lowestNeighborM_reads (cx cy : Z) :
  lowestNeighborM width height cx cy noiseMap
  = (lowestNeighbor noiseMap width height cx cy, noiseMap).
Proof.
  unfold lowestNeighborM, lowestNeighbor, Heap.bind.
  rewrite getHeightM_reads.
  apply foldM_reads. intros low ny.
  apply foldM_reads. intros low' nx.
  apply scanNeighborM_reads.
Qed.

Lemma walkM_reads (fuel : nat) :
  forall river cx cy,
    walkM width height fuel river cx cy noiseMap
    = (walk noiseMap width height fuel river cx cy, noiseMap).
Proof.
  induction fuel as [|fuel IH]; intros river cx cy; cbn [walkM walk];
    [ reflexivity | ].
  destruct (Z.of_nat (length river) <? 1000); [ | reflexivity ].
  unfold Heap.bind. rewrite lowestNeighborM_reads.
  destruct (lowestNeighbor noiseMap width height cx cy) as [[lx ly] lh].
  destruct ((lx =? cx) && (ly =? cy)); [ reflexivity | ].
  destruct (outside width height lx ly); [ reflexivity | ].
  destruct (includes (getIndex width lx ly) river); [ reflexivity | apply IH ].
Qed.

Variable minRiverLength : Z.

Lemma riverAttemptM_reads (state : Z) :
  riverAttemptM width height minRiverLength state noiseMap
  = (riverAttempt noiseMap width height minRiverLength state, noiseMap).
Proof.
  unfold riverAttemptM, riverAttempt.
  destruct (random state) as [r0 s0]. destruct (random s0) as [r1 s1].
  unfold Heap.bind. rewrite searchStartM_reads.
  generalize (searchStart noiseMap width height 99 s1 0). intros s.
  destruct (attempts s >=? 100); [ reflexivity | ].
  rewrite walkM_reads.
  generalize (walk noiseMap width height 1000
                   [getIndex width (startX s) (startY s)] (startX s) (startY s)).
  intros w.
  now destruct (Z.of_nat (length (fst w)) >=? minRiverLength).
Qed.

Lemma riverLoopM_reads (n : nat) :
  forall state rivers,
    riverLoopM width height minRiverLength n state rivers noiseMap
    = (riverLoop noiseMap width height minRiverLength n state rivers, noiseMap).
Proof.
  induction n as [|n IH]; intros state rivers; cbn [riverLoopM riverLoop];
    [ reflexivity | ].
  unfold Heap.bind. rewrite riverAttemptM_reads.
  destruct (riverAttempt noiseMap width height minRiverLength state) as [res s'].
  cbn [fst snd]. apply IH.
Qed.

Variable rivers : list (list Z).
Variable cityCount : Z.

Lemma placeLoopM_reads (fuel : nat) :
  forall state cities n,
    placeLoopM rivers width height cityCount fuel state cities n noiseMap
    = (placeLoop noiseMap rivers width height cityCount fuel state cities n,
       noiseMap).
Proof.
  induction fuel as [|fuel IH]; intros state cities n;
    cbn [placeLoopM placeLoop]; [ reflexivity | ].
  destruct ((Z.of_nat (length cities) <? cityCount) && (n <? cityCount * 10));
    [ | reflexivity ].
  destruct (random state) as [r1 s1]. destruct (random s1) as [r2 s2].
  unfold Heap.bind, Heap.load.
  set (x := floorMul r1 width). set (y := floorMul r2 height).
  destruct (num_lt (lookup noiseMap (y * width + x)) (Fin (3 # 10))
            || num_gt (lookup noiseMap (y * width + x)) (Fin (7 # 10)));
    [ apply IH | ].
  destruct (if isNearRiver rivers width height x y 3 then (false, s2)
            else let (r3, state0) := random s2 in
                 (if Qlt_le_dec r3 (7 # 10) then true else false, state0))
    as [skip s3].
  destruct skip; [ apply IH | ].
  destruct (tooClose width x y cities); [ apply IH | ].
  destruct (random s3) as [r4 s4]. apply IH.
Qed.

End ReadOnly.

(** A write does change the array: the statement below is not one that
    every computation on the array satisfies. *)
Lemma store_changes :
  snd (Heap.store 0 (Fin 1) [Fin 0]) <> [Fin 0].
Proof. discriminate. Qed.

(** C9. [generateRivers] and [placeCities], run on the array of the
    caller, leave that array element for element as it was, and return
    what the functions of the array return. *)
Theorem consumers_leave_height_field (noiseMap : list num)
        (rivers : list (list Z))
        (width height seed riverCount minRiverLength cityCount : Z) :
  snd (generateRiversM width height seed riverCount minRiverLength noiseMap)
  = noiseMap /\
  snd (placeCitiesM rivers width height seed cityCount noiseMap) = noiseMap /\
  fst (generateRiversM width height seed riverCount minRiverLength noiseMap)
  = generateRivers noiseMap width height seed riverCount minRiverLength /\
  fst (placeCitiesM rivers width height seed cityCount noiseMap)
  = placeCities noiseMap rivers width height seed cityCount.
Proof.
  unfold generateRiversM, generateRivers, placeCitiesM, placeCities.
  rewrite riverLoopM_reads, placeLoopM_reads. cbn [fst snd]. tauto.
Qed.

(** ** The bounds of the loops

    The recursive definitions above carry a bound on the number of
    iterations; the bounds used are enough: a larger one gives the same
    result. *)

Lemma walk_fuel (noiseMap : list num) (width height : Z) (fuel k : nat) :
  forall river cx cy,
    1000 <= Z.of_nat fuel + Z.of_nat (length river) ->
    walk noiseMap width height (fuel + k) river cx cy
    = walk noiseMap width height fuel river cx cy.
Proof.
  induction fuel as [|fuel IH]; intros river cx cy Hlen.
  - destruct k as [|k]; [ reflexivity | ]. cbn [walk Nat.add].
    replace (Z.of_nat (length river) <? 1000) with false; [ reflexivity | ].
    symmetry. apply Z.ltb_ge. lia.
  - cbn [walk Nat.add].
    destruct (Z.of_nat (length river) <? 1000); [ | reflexivity ].
    destruct (lowestNeighbor noiseMap width height cx cy) as [[lx ly] lh].
    destruct ((lx =? cx) && (ly =? cy)); [ reflexivity | ].
    destruct (outside width height lx ly); [ reflexivity | ].
    destruct (includes (getIndex width lx ly) river); [ reflexivity | ].
    apply IH. rewrite length_app. simpl. lia.
Qed.

Lemma searchStart_fuel (noiseMap : list num) (width height : Z) (fuel k : nat) :
  forall state n,
    99 <= Z.of_nat fuel + n ->
    searchStart noiseMap width height (fuel + k) state n
    = searchStart noiseMap width height fuel state n.
Proof.
  induction fuel as [|fuel IH]; intros state n Hn.
  - destruct k as [|k]; [ reflexivity | ]. cbn [searchStart Nat.add].
    destruct (random state) as [r1 s1]. destruct (random s1) as [r2 s2].
    replace (n + 1 <? 100) with false by (symmetry; apply Z.ltb_ge; lia).
    now rewrite andb_false_r.
  - cbn [searchStart Nat.add].
    destruct (random state) as [r1 s1]. destruct (random s1) as [r2 s2].
    destruct (unsuitable noiseMap width height _ _ && (n + 1 <? 100));
      [ apply IH; lia | reflexivity ].
Qed.

Lemma placeLoop_fuel (noiseMap : list num) (rivers : list (list Z))
      (width height cityCount : Z) (fuel k : nat) :
  forall state cities n,
    cityCount * 10 <= Z.of_nat fuel + n ->
    placeLoop noiseMap rivers width height cityCount (fuel + k) state cities n
    = placeLoop noiseMap rivers width height cityCount fuel state cities n.
Proof.
  induction fuel as [|fuel IH]; intros state cities n Hn.
  - destruct k as [|k]; [ reflexivity | ]. cbn [placeLoop Nat.add].
    replace (n <? cityCount * 10) with false by (symmetry; apply Z.ltb_ge; lia).
    now rewrite andb_false_r.
  - cbn [placeLoop Nat.add].
    destruct ((Z.of_nat (length cities) <? cityCount) && (n <? cityCount * 10));
      [ | reflexivity ].
    destruct (random state) as [r1 s1]. destruct (random s1) as [r2 s2].
    set (x := floorMul r1 width). set (y := floorMul r2 height).
    destruct (num_lt (lookup noiseMap (y * width + x)) (Fin (3 # 10))
              || num_gt (lookup noiseMap (y * width + x)) (Fin (7 # 10)));
      [ apply IH; lia | ].
    destruct (if isNearRiver rivers width height x y 3 then (false, s2)
              else let (r3, state0) := random s2 in
                   (if Qlt_le_dec r3 (7 # 10) then true else false, state0))
      as [skip s3].
    destruct skip; [ apply IH; lia | ].
    destruct (tooClose width x y cities); [ apply IH; lia | ].
    destruct (random s3) as [r4 s4]. apply IH. lia.
Qed.

(** The bounds that the three functions pass are enough. *)
Lemma loop_bounds_suffice (noiseMap : list num) (rivers : list (list Z))
      (width height cityCount state x y : Z) (k : nat) :
  walk noiseMap width height (1000 + k) [getIndex width x y] x y
  = walk noiseMap width height 1000 [getIndex width x y] x y /\
  searchStart noiseMap width height (99 + k) state 0
  = searchStart noiseMap width height 99 state 0 /\
  placeLoop noiseMap rivers width height cityCount
            (Z.to_nat (cityCount * 10) + k) state [] 0
  = placeLoop noiseMap rivers width height cityCount
              (Z.to_nat (cityCount * 10)) state [] 0.
Proof.
  split; [ | split ].
  - apply walk_fuel. simpl. lia.
  - apply searchStart_fuel. simpl. lia.
  - apply placeLoop_fuel. lia.
Qed.

(** * Further properties of the code *)

(** ** generateRivers: the shape of the paths *)

Lemma fold_left_preserves_in {A B : Type} (P : A -> Prop) (f : A -> B -> A)
      (l : list B) :
  (forall a b, In b l -> P a -> P (f a b)) ->
  forall a, P a -> P (fold_left f l a).
Proof.
  induction l as [|b l IH]; intros Hf a Ha; simpl; [ exact Ha | ].
  apply IH.
  - intros a' b' Hb'. apply Hf. now right.
  - apply Hf; [ now left | exact Ha ].
Qed.

(** A fold whose result still satisfies [stay], when no step can
    restore [stay], has changed nothing, and every step was [ok]. *)
Lemma fold_left_stay {A B : Type} (stay : A -> Prop) (ok : A -> B -> Prop)
      (f : A -> B -> A) (l : list B) :
  (forall a b, In b l -> stay (f a b) -> stay a /\ f a b = a /\ ok a b) ->
  forall a, stay (fold_left f l a) ->
            fold_left f l a = a /\ forall b, In b l -> ok a b.
Proof.
  induction l as [|b l IH]; intros Hf a Hs; simpl in *.
  - split; [ reflexivity | intros b [] ].
  - destruct (IH (fun a' b' Hb' => Hf a' b' (or_intror Hb')) (f a b) Hs)
      as [E Hok].
    rewrite E in Hs.
    destruct (Hf a b (or_introl eq_refl) Hs) as (Hs' & E' & Hab).
    split; [ now rewrite E | ].
    intros b' [<-|Hb']; [ exact Hab | ].
    rewrite <- E'. now apply Hok.
Qed.

Section RiverShape.

Variable noiseMap : list num.
Variables width height : Z.

Lemma scanNeighbor_near (cx cy ny nx : Z) (low : Z * Z * num) :
  -1 <= nx <= 1 -> -1 <= ny <= 1 ->
  Z.abs (fst (fst low) - cx) <= 1 /\ Z.abs (snd (fst low) - cy) <= 1 ->
  let low' := scanNeighbor noiseMap width height cx cy ny nx low in
  Z.abs (fst (fst low') - cx) <= 1 /\ Z.abs (snd (fst low') - cy) <= 1.
Proof.
  intros Hx Hy Hlow. unfold scanNeighbor.
  destruct ((nx =? 0) && (ny =? 0)); [ exact Hlow | ].
  destruct low as [[lx ly] lh].
  destruct (num_lt (getHeight noiseMap width height (cx + nx) (cy + ny)) lh);
    [ | exact Hlow ].
  cbn [fst snd]. lia.
Qed.

(** The point that the scan returns is the current one or one of its
    8 neighbours. *)
Lemma lowestNeighbor_near (cx cy lx ly : Z) (lh : num) :
  lowestNeighbor noiseMap width height cx cy = (lx, ly, lh) ->
  Z.abs (lx - cx) <= 1 /\ Z.abs (ly - cy) <= 1.
Proof.
  intros E.
  assert (H : Z.abs (fst (fst (lowestNeighbor noiseMap width height cx cy)) - cx) <= 1 /\
              Z.abs (snd (fst (lowestNeighbor noiseMap width height cx cy)) - cy) <= 1).
  { unfold lowestNeighbor.
    apply (fold_left_preserves_in
             (fun low => Z.abs (fst (fst low) - cx) <= 1 /\
                         Z.abs (snd (fst low) - cy) <= 1)).
    - intros low ny Hny Hlow.
      apply (fold_left_preserves_in
               (fun low => Z.abs (fst (fst low) - cx) <= 1 /\
                           Z.abs (snd (fst low) - cy) <= 1));
        [ | exact Hlow ].
      intros low' nx Hnx Hlow'.
      apply scanNeighbor_near; [ | | exact Hlow' ].
      + simpl in Hnx. lia.
      + simpl in Hny. lia.
    - cbn [fst snd]. lia. }
  rewrite E in H. exact H.
Qed.

Lemma scanNeighbor_stay (cx cy ny nx : Z) (low : Z * Z * num) :
  let low' := scanNeighbor noiseMap width height cx cy ny nx low in
  fst (fst low') = cx /\ snd (fst low') = cy ->
  (fst (fst low) = cx /\ snd (fst low) = cy) /\
  low' = low /\
  ((nx = 0 /\ ny = 0) \/
   num_lt (getHeight noiseMap width height (cx + nx) (cy + ny)) (snd low) = false).
Proof.
  unfold scanNeighbor.
  destruct ((nx =? 0) && (ny =? 0)) eqn:E0.
  - intros H. apply andb_true_iff in E0. destruct E0 as [Ex Ey].
    apply Z.eqb_eq in Ex, Ey. auto.
  - destruct low as [[lx ly] lh].
    destruct (num_lt (getHeight noiseMap width height (cx + nx) (cy + ny)) lh)
      eqn:E.
    + cbn [fst snd]. intros [Hx Hy]. exfalso.
      assert (nx = 0) by lia. assert (ny = 0) by lia. subst.
      discriminate E0.
    + cbn [fst snd]. intros H. auto.
Qed.

(** When the scan returns the current point, no neighbour is strictly lower. *)
Lemma lowestNeighbor_stay (cx cy : Z) (lh : num) :
  lowestNeighbor noiseMap width height cx cy = (cx, cy, lh) ->
  localMinimum noiseMap width height cx cy.
Proof.
  intros E.
  set (stay := fun low : Z * Z * num => fst (fst low) = cx /\ snd (fst low) = cy).
  set (okIn := fun (ny : Z) (low : Z * Z * num) (nx : Z) =>
                 (nx = 0 /\ ny = 0) \/
                 num_lt (getHeight noiseMap width height (cx + nx) (cy + ny))
                        (snd low) = false).
  assert (Hs : stay (lowestNeighbor noiseMap width height cx cy))
    by (rewrite E; split; reflexivity).
  unfold lowestNeighbor in Hs.
  apply (fold_left_stay stay (fun low ny => forall nx, In nx [-1; 0; 1] -> okIn ny low nx))
    in Hs.
  - destruct Hs as [_ Hok]. intros nx ny Hnx Hny.
    assert (Hny' : In ny [-1; 0; 1]) by (simpl; lia).
    assert (Hnx' : In nx [-1; 0; 1]) by (simpl; lia).
    destruct (Hok ny Hny' nx Hnx') as [[-> ->]|H].
    + rewrite !Z.add_0_r. apply num_lt_irrefl.
    + exact H.
  - intros low ny _ Hlow. pose proof Hlow as Hstay.
    apply (fold_left_stay stay (okIn ny)) in Hlow.
    + destruct Hlow as [Elow Hok]. rewrite Elow in Hstay. auto.
    + intros low' nx _ Hlow'. now apply scanNeighbor_stay.
Qed.

(** The walk never lengthens a river beyond 1000 points. *)
Lemma walk_length (fuel : nat) :
  forall river cx cy,
    (length river <= 1000)%nat ->
    (length (fst (walk noiseMap width height fuel river cx cy)) <= 1000)%nat.
Proof.
  induction fuel as [|fuel IH]; intros river cx cy Hlen; cbn [walk];
    [ exact Hlen | ].
  destruct (Z.of_nat (length river) <? 1000) eqn:Eg; [ | exact Hlen ].
  apply Z.ltb_lt in Eg.
  destruct (lowestNeighbor noiseMap width height cx cy) as [[lx ly] lh].
  destruct ((lx =? cx) && (ly =? cy)); [ exact Hlen | ].
  destruct (outside width height lx ly); [ exact Hlen | ].
  destruct (includes (getIndex width lx ly) river); [ exact Hlen | ].
  apply IH. rewrite length_app. simpl. lia.
Qed.

(** A walk that ends at the cap has 1000 points. *)
Lemma walk_cap (fuel : nat) :
  forall river cx cy,
    1000 <= Z.of_nat fuel + Z.of_nat (length river) ->
    (length river <= 1000)%nat ->
    snd (walk noiseMap width height fuel river cx cy) = Cap ->
    length (fst (walk noiseMap width height fuel river cx cy)) = 1000%nat.
Proof.
  induction fuel as [|fuel IH]; intros river cx cy Hf Hlen; cbn [walk].
  - intros _. cbn [fst]. lia.
  - destruct (Z.of_nat (length river) <? 1000) eqn:Eg.
    + apply Z.ltb_lt in Eg.
      destruct (lowestNeighbor noiseMap width height cx cy) as [[lx ly] lh].
      destruct ((lx =? cx) && (ly =? cy)); [ discriminate | ].
      destruct (outside width height lx ly); [ discriminate | ].
      destruct (includes (getIndex width lx ly) river); [ discriminate | ].
      apply IH; rewrite length_app; simpl; lia.
    + apply Z.ltb_ge in Eg. intros _. cbn [fst]. lia.
Qed.

(** Every step of the walk is to a neighbouring cell. *)
Lemma walk_adjacent (fuel : nat) :
  forall pre cx cy,
    outside width height cx cy = false ->
    chain (adjacent width height) (pre ++ [getIndex width cx cy]) ->
    chain (adjacent width height)
          (fst (walk noiseMap width height fuel (pre ++ [getIndex width cx cy]) cx cy)).
Proof.
  induction fuel as [|fuel IH]; intros pre cx cy Hin Hc; cbn [walk];
    [ exact Hc | ].
  destruct (Z.of_nat (length (pre ++ [getIndex width cx cy])) <? 1000);
    [ | exact Hc ].
  destruct (lowestNeighbor noiseMap width height cx cy) as [[lx ly] lh] eqn:E.
  destruct ((lx =? cx) && (ly =? cy)) eqn:Emove; [ exact Hc | ].
  destruct (outside width height lx ly) eqn:Eout; [ exact Hc | ].
  destruct (includes (getIndex width lx ly) (pre ++ [getIndex width cx cy]));
    [ exact Hc | ].
  apply IH; [ exact Eout | ].
  apply chain_snoc; [ exact Hc | ].
  destruct (lowestNeighbor_near cx cy lx ly lh E) as [Hx Hy].
  exists cx, cy, lx, ly. repeat (split; [ assumption || reflexivity | ]).
  apply andb_false_iff in Emove.
  destruct Emove as [H|H]; apply Z.eqb_neq in H; auto.
Qed.

(** The heights strictly decrease along the walk, so the index of the
    next cell is never one the river already holds. *)
Lemma walk_no_cycle (fuel : nat) :
  forall pre cx cy,
    outside width height cx cy = false ->
    Forall (fun a => a = getIndex width cx cy \/
                     num_lt (lookup noiseMap (getIndex width cx cy))
                            (lookup noiseMap a) = true)
           (pre ++ [getIndex width cx cy]) ->
    snd (walk noiseMap width height fuel (pre ++ [getIndex width cx cy]) cx cy)
    <> Cycle.
Proof.
  induction fuel as [|fuel IH]; intros pre cx cy Hin Hall; cbn [walk];
    [ discriminate | ].
  destruct (Z.of_nat (length (pre ++ [getIndex width cx cy])) <? 1000);
    [ | discriminate ].
  destruct (lowestNeighbor noiseMap width height cx cy) as [[lx ly] lh] eqn:E.
  destruct ((lx =? cx) && (ly =? cy)) eqn:Emove; [ discriminate | ].
  destruct (outside width height lx ly) eqn:Eout; [ discriminate | ].
  pose proof (lowestNeighbor_moves_down _ _ _ _ _ _ _ _ E Emove) as Hdown.
  rewrite (getHeight_inside _ _ _ _ _ Eout), (getHeight_inside _ _ _ _ _ Hin)
    in Hdown.
  assert (Hlower : Forall (fun a => num_lt (lookup noiseMap (getIndex width lx ly))
                                           (lookup noiseMap a) = true)
                          (pre ++ [getIndex width cx cy])).
  { eapply Forall_impl; [ | exact Hall ].
    intros a [->|Ha]; [ exact Hdown | eapply num_lt_trans; eassumption ]. }
  destruct (includes (getIndex width lx ly) (pre ++ [getIndex width cx cy]))
    eqn:Einc.
  - exfalso. unfold includes in Einc. apply existsb_exists in Einc.
    destruct Einc as (a & Ha & Eq). apply Z.eqb_eq in Eq. subst a.
    rewrite Forall_forall in Hlower. specialize (Hlower _ Ha).
    now rewrite num_lt_irrefl in Hlower.
  - apply IH; [ exact Eout | ].
    apply Forall_app. split.
    + eapply Forall_impl; [ | exact Hlower ]. intros a Ha. now right.
    + apply Forall_cons; [ now left | constructor ].
Qed.

(** A walk that ends in the sink branch ends at a local minimum. *)
Lemma walk_sink (fuel : nat) :
  forall pre cx cy river,
    outside width height cx cy = false ->
    walk noiseMap width height fuel (pre ++ [getIndex width cx cy]) cx cy
    = (river, Sink) ->
    exists pre' x y,
      outside width height x y = false /\
      river = pre' ++ [getIndex width x y] /\
      localMinimum noiseMap width height x y.
Proof.
  induction fuel as [|fuel IH]; intros pre cx cy river Hin; cbn [walk];
    [ discriminate | ].
  destruct (Z.of_nat (length (pre ++ [getIndex width cx cy])) <? 1000);
    [ | discriminate ].
  destruct (lowestNeighbor noiseMap width height cx cy) as [[lx ly] lh] eqn:E.
  destruct ((lx =? cx) && (ly =? cy)) eqn:Emove.
  - intros [= <-]. apply andb_true_iff in Emove. destruct Emove as [Ex Ey].
    apply Z.eqb_eq in Ex, Ey. subst lx ly.
    exists pre, cx, cy. split; [ exact Hin | split; [ reflexivity | ] ].
    eapply lowestNeighbor_stay. exact E.
  - destruct (outside width height lx ly) eqn:Eout; [ discriminate | ].
    destruct (includes (getIndex width lx ly) (pre ++ [getIndex width cx cy]));
      [ discriminate | ].
    apply IH. exact Eout.
Qed.

Variable minRiverLength : Z.

(** A river pushed by one iteration is the walk from a point that
    passed the height test. *)
Lemma riverAttempt_walk (state state' : Z) (river : list Z) :
  riverAttempt noiseMap width height minRiverLength state = (Some river, state') ->
  exists x y,
    unsuitable noiseMap width height x y = false /\
    river = fst (walk noiseMap width height 1000 [getIndex width x y] x y).
Proof.
  unfold riverAttempt.
  destruct (random state) as [r0 s0]. destruct (random s0) as [r1 s1].
  pose proof (searchStart_exit noiseMap width height 99 s1 0 ltac:(simpl; lia)) as Hs.
  cbv zeta in Hs.
  destruct (searchStart noiseMap width height 99 s1 0) as [sx sy att st].
  cbn [attempts startX startY startState] in *.
  destruct (att >=? 100) eqn:Ea; [ discriminate | ].
  rewrite Z.geb_leb in Ea. apply Z.leb_gt in Ea.
  destruct Hs as [Hs|Hs]; [ lia | ].
  set (w := walk noiseMap width height 1000 [getIndex width sx sy] sx sy).
  destruct (Z.of_nat (length (fst w)) >=? minRiverLength); [ | discriminate ].
  intros H. injection H as <- <-. now exists sx, sy.
Qed.

Lemma riverLoop_length (n : nat) :
  forall state rivers,
    (length (riverLoop noiseMap width height minRiverLength n state rivers)
     <= length rivers + n)%nat.
Proof.
  induction n as [|n IH]; intros state rivers; cbn [riverLoop]; [ lia | ].
  destruct (riverAttempt noiseMap width height minRiverLength state)
    as [[river|] state'].
  - specialize (IH state' (rivers ++ [river])).
    rewrite length_app in IH. simpl in IH. lia.
  - specialize (IH state' rivers). lia.
Qed.

End RiverShape.

Lemma generateRivers_walk (noiseMap : list num)
      (width height seed riverCount minRiverLength : Z) (river : list Z) :
  In river (generateRivers noiseMap width height seed riverCount minRiverLength) ->
  exists x y,
    unsuitable noiseMap width height x y = false /\
    river = fst (walk noiseMap width height 1000 [getIndex width x y] x y).
Proof.
  revert river. apply Forall_forall. apply generateRivers_Forall.
  intros state state' river. apply riverAttempt_walk.
Qed.

Section WalkFromStart.

Variable noiseMap : list num.
Variables width height : Z.
Variable fuel : nat.
Variables x y : Z.
Hypothesis start_inside : outside width height x y = false.

Lemma walk_adjacent_start :
  chain (adjacent width height)
        (fst (walk noiseMap width height fuel [getIndex width x y] x y)).
Proof.
  apply (walk_adjacent noiseMap width height fuel [] x y start_inside).
  exact I.
Qed.

Lemma walk_no_cycle_start :
  snd (walk noiseMap width height fuel [getIndex width x y] x y) <> Cycle.
Proof.
  apply (walk_no_cycle noiseMap width height fuel [] x y start_inside).
  apply Forall_cons; [ now left | constructor ].
Qed.

Lemma walk_sink_start (river : list Z) :
  walk noiseMap width height fuel [getIndex width x y] x y = (river, Sink) ->
  exists pre' x' y',
    outside width height x' y' = false /\
    river = pre' ++ [getIndex width x' y'] /\
    localMinimum noiseMap width height x' y'.
Proof.
  apply (walk_sink noiseMap width height fuel [] x y river start_inside).
Qed.

End WalkFromStart.

(** X1. [generateRivers] returns at most [riverCount] paths, and none
    when [riverCount] is zero or negative. *)
Theorem river_count_bound (noiseMap : list num)
        (width height seed riverCount minRiverLength : Z) :
  (length (generateRivers noiseMap width height seed riverCount minRiverLength)
   <= Z.to_nat riverCount)%nat.
Proof.
  unfold generateRivers.
  exact (riverLoop_length noiseMap width height minRiverLength
                          (Z.to_nat riverCount) seed []).
Qed.

(** X2. No path returned by [generateRivers] has more than 1000 points. *)
Theorem river_length_cap (noiseMap : list num)
        (width height seed riverCount minRiverLength : Z) (river : list Z) :
  In river (generateRivers noiseMap width height seed riverCount minRiverLength) ->
  (length river <= 1000)%nat.
Proof.
  intros Hin. destruct (generateRivers_walk _ _ _ _ _ _ _ Hin) as (x & y & _ & ->).
  apply walk_length. simpl. lia.
Qed.

Lemma river_length_cap_witness :
  In [10; 7] (generateRivers ridgeField 4 4 1 1 2) /\
  (length [10; 7] <= 1000)%nat.
Proof.
  assert (H : In [10; 7] (generateRivers ridgeField 4 4 1 1 2))
    by (vm_compute; left; reflexivity).
  split; [ exact H | ].
  exact (river_length_cap ridgeField 4 4 1 1 2 [10; 7] H).
Defined.

(** X3. Two consecutive indices of a returned path are the indices of
    two different cells of the grid that are at most one column and
    one row apart: a river moves from a cell to one of its 8 neighbours. *)
Theorem river_steps_adjacent (noiseMap : list num)
        (width height seed riverCount minRiverLength : Z)
        (river : list Z) (i : nat) (a b : Z) :
  In river (generateRivers noiseMap width height seed riverCount minRiverLength) ->
  nth_error river i = Some a ->
  nth_error river (S i) = Some b ->
  adjacent width height a b.
Proof.
  intros Hin Ha Hb.
  destruct (generateRivers_walk _ _ _ _ _ _ _ Hin) as (x & y & Hs & E).
  assert (Hc : chain (adjacent width height) river).
  { rewrite E. apply walk_adjacent_start. now apply suitable_inside in Hs. }
  exact (chain_nth _ _ Hc i a b Ha Hb).
Qed.

Lemma river_steps_adjacent_witness :
  In [10; 7] (generateRivers ridgeField 4 4 1 1 2) /\ adjacent 4 4 10 7.
Proof.
  assert (H : In [10; 7] (generateRivers ridgeField 4 4 1 1 2))
    by (vm_compute; left; reflexivity).
  split; [ exact H | ].
  apply (river_steps_adjacent ridgeField 4 4 1 1 2 [10; 7] 0 10 7 H);
    reflexivity.
Defined.

(** X4. In a walk that starts from a cell of the grid, the test
    [river.includes(index)] never succeeds: the heights strictly
    decrease along the path, so the walk never ends in its cycle branch. *)
Theorem cycle_guard_never_fires (noiseMap : list num) (width height : Z)
        (fuel : nat) (x y : Z) :
  outside width height x y = false ->
  snd (walk noiseMap width height fuel [getIndex width x y] x y) <> Cycle.
Proof.
  intros Hin. now apply walk_no_cycle_start.
Qed.

Lemma cycle_guard_never_fires_witness :
  outside 4 4 2 2 = false /\
  snd (walk ridgeField 4 4 1000 [10] 2 2) <> Cycle.
Proof.
  split; [ reflexivity | ].
  exact (cycle_guard_never_fires ridgeField 4 4 1000 2 2 eq_refl).
Defined.

(** X5. On a height field whose values all lie in [[0, 1]], every
    returned path of fewer than 1000 points ends at a cell of the grid
    that has no strictly lower neighbour. *)
Theorem river_ends_at_local_minimum (noiseMap : list num)
        (width height seed riverCount minRiverLength : Z) (river : list Z) :
  Forall unitHeight noiseMap ->
  In river (generateRivers noiseMap width height seed riverCount minRiverLength) ->
  (length river < 1000)%nat ->
  exists pre x y,
    outside width height x y = false /\
    river = pre ++ [getIndex width x y] /\
    localMinimum noiseMap width height x y.
Proof.
  intros Hunit Hin Hlen.
  destruct (generateRivers_walk _ _ _ _ _ _ _ Hin) as (x & y & Hs & E).
  apply suitable_inside in Hs.
  pose proof (walk_stays_inside noiseMap width height Hunit 1000
                                [getIndex width x y] x y) as Hoob.
  pose proof (walk_no_cycle_start noiseMap width height 1000 x y Hs) as Hcyc.
  pose proof (walk_cap noiseMap width height 1000 [getIndex width x y] x y
                       ltac:(simpl; lia) ltac:(simpl; lia)) as Hcap.
  pose proof (walk_sink_start noiseMap width height 1000 x y Hs) as Hsink.
  revert E Hoob Hcyc Hcap Hsink.
  generalize (walk noiseMap width height 1000 [getIndex width x y] x y).
  intros [rv stp]. cbn [fst snd]. intros -> Hoob Hcyc Hcap Hsink.
  destruct stp.
  - now apply Hsink.
  - contradiction.
  - contradiction.
  - specialize (Hcap eq_refl). lia.
Qed.

Lemma river_ends_at_local_minimum_witness :
  Forall unitHeight ridgeField /\
  In [10; 7] (generateRivers ridgeField 4 4 1 1 2) /\
  exists pre x y,
    outside 4 4 x y = false /\
    [10; 7] = pre ++ [getIndex 4 x y] /\
    localMinimum ridgeField 4 4 x y.
Proof.
  assert (H : In [10; 7] (generateRivers ridgeField 4 4 1 1 2))
    by (vm_compute; left; reflexivity).
  split; [ exact ridgeField_unit | split; [ exact H | ] ].
  apply (river_ends_at_local_minimum ridgeField 4 4 1 1 2 [10; 7]
                                     ridgeField_unit H).
  simpl. lia.
Defined.

(** ** placeCities: what every placed city passed *)

(** [Math.floor(r * n)] for a draw [r] of [[0, 1)] and a positive [n]
    is one of [0, ..., n - 1]. *)
Lemma floorMul_range (r : Q) (n : Z) :
  (0 <= r < 1)%Q -> 0 < n -> 0 <= floorMul r n < n.
Proof.
  intros [Hlo Hhi] Hn. unfold floorMul.
  assert (Hn' : (inject_Z 0 < inject_Z n)%Q) by (rewrite <- Zlt_Qlt; exact Hn).
  change (inject_Z 0) with 0%Q in Hn'.
  split.
  - rewrite <- (Qfloor_Z 0). apply Qfloor_resp_le.
    apply Qmult_le_0_compat; [ exact Hlo | now apply Qlt_le_weak ].
  - rewrite Zlt_Qlt.
    eapply Qle_lt_trans; [ apply Qfloor_le | ].
    rewrite <- (Qmult_1_l (inject_Z n)) at 2.
    now apply Qmult_lt_compat_r.
Qed.

Section CityGuards.

Variable noiseMap : list num.
Variable rivers : list (list Z).
Variables width height cityCount : Z.

(** As [placeLoop_invariant], with what the loop has tested when it
    pushes a city: [s0] is the state at the head of the iteration and
    [s3] the state before the draw of the size. *)
Lemma placeLoop_guarded (I : Z -> list City.t -> Prop) :
  (forall state cities, I state cities -> I (snd (random state)) cities) ->
  (forall s0 s3 cities,
      I s0 cities -> I s3 cities ->
      let x := floorMul (fst (random s0)) width in
      let y := floorMul (fst (random (snd (random s0)))) height in
      let terrainHeight := lookup noiseMap (y * width + x) in
      Z.of_nat (length cities) < cityCount ->
      num_lt terrainHeight (Fin (3 # 10)) || num_gt terrainHeight (Fin (7 # 10))
      = false ->
      tooClose width x y cities = false ->
      I (snd (random s3))
        (cities ++
           [City.mk x y
              (citySize (fst (random s3))
                        (isNearRiver rivers width height x y 3)
                        terrainHeight)])) ->
  forall fuel state cities attempts,
    I state cities ->
    exists state',
      I state' (placeLoop noiseMap rivers width height cityCount
                          fuel state cities attempts).
Proof.
  intros Hdraw Hpush.
  induction fuel as [|fuel IH]; intros state cities attempts HI; cbn [placeLoop].
  - now exists state.
  - destruct ((Z.of_nat (length cities) <? cityCount) && (attempts <? cityCount * 10))
      eqn:Eguard; [ | now exists state ].
    apply andb_true_iff in Eguard. destruct Eguard as [Elen _].
    apply Z.ltb_lt in Elen.
    pose proof (Hpush state) as Hp. cbv zeta in Hp.
    pose proof (Hdraw _ _ HI) as H1.
    destruct (random state) as [r1 s1]. cbn [fst snd] in H1, Hp.
    pose proof (Hdraw _ _ H1) as H2.
    destruct (random s1) as [r2 s2]. cbn [fst snd] in H2, Hp.
    set (x := floorMul r1 width) in *. set (y := floorMul r2 height) in *.
    destruct (num_lt (lookup noiseMap (y * width + x)) (Fin (3 # 10))
              || num_gt (lookup noiseMap (y * width + x)) (Fin (7 # 10)))
      eqn:Eband; [ now apply IH | ].
    assert (H3 : exists skip s3,
               (if isNearRiver rivers width height x y 3 then (false, s2)
                else let (r3, state0) := random s2 in
                     (if Qlt_le_dec r3 (7 # 10) then true else false, state0))
               = (skip, s3) /\ I s3 cities).
    { destruct (isNearRiver rivers width height x y 3).
      - exists false, s2. now split.
      - pose proof (Hdraw _ _ H2) as H3.
        destruct (random s2) as [r3 s3]. cbn [snd] in H3.
        eexists _, s3. split; [ reflexivity | exact H3 ]. }
    destruct H3 as (skip & s3 & -> & H3).
    destruct skip; [ now apply IH | ].
    destruct (tooClose width x y cities) eqn:Eclose; [ now apply IH | ].
    pose proof (Hp s3 cities HI H3 Elen eq_refl Eclose) as H4.
    destruct (random s3) as [r4 s4]. cbn [fst snd] in H4.
    now apply IH.
Qed.

End CityGuards.

(** X6. [placeCities] returns at most [cityCount] cities, and none when
    [cityCount] is zero or negative. *)
Theorem city_count_bound (noiseMap : list num) (rivers : list (list Z))
        (width height seed cityCount : Z) :
  (length (placeCities noiseMap rivers width height seed cityCount)
   <= Z.to_nat cityCount)%nat.
Proof.
  unfold placeCities.
  destruct (placeLoop_guarded noiseMap rivers width height cityCount
              (fun _ cs => Z.of_nat (length cs) <= Z.max 0 cityCount))
    with (fuel := Z.to_nat (cityCount * 10)) (state := seed)
         (cities := @nil City.t) (attempts := 0) as [_ H].
  - auto.
  - intros s0 s3 cs _ _ x y th Hlen _ _. rewrite length_app. simpl. lia.
  - simpl. lia.
  - lia.
Qed.

(** X7. The terrain height under every city returned by [placeCities]
    passed the test of the source: it is a number of [[0.3, 0.7]], or
    it is not a number at all. *)
Theorem city_terrain_band (noiseMap : list num) (rivers : list (list Z))
        (width height seed cityCount : Z) (c : City.t) :
  In c (placeCities noiseMap rivers width height seed cityCount) ->
  let terrainHeight := lookup noiseMap (City.y c * width + City.x c) in
  terrainHeight = NaN \/
  exists q, terrainHeight = Fin q /\ (3 # 10 <= q <= 7 # 10)%Q.
Proof.
  intros Hin. cbv zeta. revert c Hin. apply Forall_forall.
  unfold placeCities.
  destruct (placeLoop_guarded noiseMap rivers width height cityCount
              (fun _ cs =>
                 Forall (fun c =>
                           lookup noiseMap (City.y c * width + City.x c) = NaN \/
                           exists q,
                             lookup noiseMap (City.y c * width + City.x c) = Fin q /\
                             (3 # 10 <= q <= 7 # 10)%Q) cs))
    with (fuel := Z.to_nat (cityCount * 10)) (state := seed)
         (cities := @nil City.t) (attempts := 0) as [_ H].
  - auto.
  - intros s0 s3 cs Hcs _ x y th _ Hband _.
    apply Forall_app. split; [ exact Hcs | ].
    apply Forall_cons; [ | constructor ]. cbn [City.x City.y].
    fold th. apply orb_false_iff in Hband. destruct Hband as [H1 H2].
    unfold num_gt in H2.
    destruct th as [q| | |]; simpl in H1, H2; try discriminate; auto.
    right. exists q. split; [ reflexivity | ].
    destruct (Qlt_le_dec q (3 # 10)), (Qlt_le_dec (7 # 10) q);
      try discriminate. now split.
  - constructor.
  - exact H.
Qed.

Lemma city_terrain_band_witness :
  exists c,
    In c (placeCities plain [] 20 20 1 3) /\
    (City.x c, City.y c) = (7, 5) /\
    (lookup plain (City.y c * 20 + City.x c) = NaN \/
     exists q, lookup plain (City.y c * 20 + City.x c) = Fin q /\
               (3 # 10 <= q <= 7 # 10)%Q).
Proof.
  eexists.
  assert (H : forall c l, placeCities plain [] 20 20 1 3 = c :: l ->
                          In c (placeCities plain [] 20 20 1 3))
    by (intros c l ->; now left).
  split; [ eapply H; vm_compute; reflexivity | ].
  split; [ reflexivity | ].
  apply (city_terrain_band plain [] 20 20 1 3).
  eapply H. vm_compute. reflexivity.
Defined.

(** X8. For a non-negative seed and positive dimensions, every city
    returned by [placeCities] lies on the grid:
    [0 <= x < width] and [0 <= y < height]. *)
Theorem city_in_grid (noiseMap : list num) (rivers : list (list Z))
        (width height seed cityCount : Z) (c : City.t) :
  0 <= seed -> 0 < width -> 0 < height ->
  In c (placeCities noiseMap rivers width height seed cityCount) ->
  0 <= City.x c < width /\ 0 <= City.y c < height.
Proof.
  intros Hseed Hw Hh Hin. revert c Hin. apply Forall_forall.
  unfold placeCities.
  destruct (placeLoop_guarded noiseMap rivers width height cityCount
              (fun st cs =>
                 0 <= st /\
                 Forall (fun c => 0 <= City.x c < width /\ 0 <= City.y c < height) cs))
    with (fuel := Z.to_nat (cityCount * 10)) (state := seed)
         (cities := @nil City.t) (attempts := 0) as [st' [_ H]].
  - intros st cs [Hst Hcs]. split; [ apply random_range, Hst | exact Hcs ].
  - intros s0 s3 cs [Hs0 Hcs] [Hs3 _] x y th _ _ _.
    split; [ apply random_range, Hs3 | ].
    apply Forall_app. split; [ exact Hcs | ].
    apply Forall_cons; [ | constructor ]. cbn [City.x City.y].
    destruct (random_range s0 Hs0) as [Hr1 Hs1].
    destruct (random_range _ Hs1) as [Hr2 _].
    split; apply floorMul_range; assumption.
  - split; [ exact Hseed | constructor ].
  - exact H.
Qed.

Lemma city_in_grid_witness :
  exists c,
    In c (placeCities plain [] 20 20 1 3) /\
    (City.x c, City.y c) = (7, 5) /\
    0 <= City.x c < 20 /\ 0 <= City.y c < 20.
Proof.
  eexists.
  assert (H : forall c l, placeCities plain [] 20 20 1 3 = c :: l ->
                          In c (placeCities plain [] 20 20 1 3))
    by (intros c l ->; now left).
  split; [ eapply H; vm_compute; reflexivity | ].
  split; [ reflexivity | ].
  apply (city_in_grid plain [] 20 20 1 3); [ lia | lia | lia | ].
  eapply H. vm_compute. reflexivity.
Defined.

(** ** placeCities: isNearRiver *)

Lemma zrange_In (lo hi k : Z) : In k (zrange lo hi) <-> lo <= k <= hi.
Proof.
  unfold zrange. rewrite in_map_iff. split.
  - intros (n & <- & Hn). apply in_seq in Hn. lia.
  - intros Hk. exists (Z.to_nat (k - lo)). split; [ lia | ].
    apply in_seq. lia.
Qed.

(** X9. [isNearRiver(x, y, distance)] is true exactly when some cell of
    the grid at most [distance] columns and [distance] rows away from
    [(x, y)] has its index in one of the rivers. *)
Theorem isNearRiver_spec (rivers : list (list Z)) (width height x y distance : Z) :
  isNearRiver rivers width height x y distance = true <->
  exists checkX checkY river,
    Z.abs (checkX - x) <= distance /\
    Z.abs (checkY - y) <= distance /\
    outside width height checkX checkY = false /\
    In river rivers /\
    In (checkY * width + checkX) river.
Proof.
  unfold isNearRiver. rewrite existsb_exists. split.
  - intros (ny & Hny & H). apply existsb_exists in H.
    destruct H as (nx & Hnx & H).
    apply zrange_In in Hny, Hnx.
    destruct (outside width height (x + nx) (y + ny)) eqn:Eout;
      [ discriminate | ].
    unfold has, riverPoints in H. apply existsb_exists in H.
    destruct H as (i & Hi & Ei). apply Z.eqb_eq in Ei. subst i.
    apply in_concat in Hi. destruct Hi as (river & Hr & Hi).
    exists (x + nx), (y + ny), river.
    repeat split; try assumption; lia.
  - intros (cx & cy & river & Hx & Hy & Hout & Hr & Hi).
    exists (cy - y). split; [ apply zrange_In; lia | ].
    apply existsb_exists. exists (cx - x). split; [ apply zrange_In; lia | ].
    replace (x + (cx - x)) with cx by ring.
    replace (y + (cy - y)) with cy by ring.
    rewrite Hout. unfold has, riverPoints. apply existsb_exists.
    exists (cy * width + cx). split; [ | apply Z.eqb_refl ].
    apply in_concat. now exists river.
Qed.

(** ** The renderer and the river indices *)

Lemma outside_false (width height x y : Z) :
  outside width height x y = false <-> 0 <= x < width /\ 0 <= y < height.
Proof.
  unfold outside. rewrite !orb_false_iff, !Z.ltb_ge, !Z.geb_leb, !Z.leb_gt. lia.
Qed.

(** X14. The renderer decodes every index of every returned path
    ([x = index % width], [y = Math.floor(index / width)]) to a cell of
    the grid whose index it is: it draws the river through the cells
    that the tracer visited. *)
Theorem river_point_decodes (noiseMap : list num)
        (width height seed riverCount minRiverLength : Z)
        (river : list Z) (index : Z) :
  In river (generateRivers noiseMap width height seed riverCount minRiverLength) ->
  In index river ->
  exists x y,
    riverPoint width index = (x, y) /\
    0 <= x < width /\ 0 <= y < height /\
    getIndex width x y = index.
Proof.
  intros Hr Hi.
  destruct (generateRivers_traced _ _ _ _ _ _ _ Hr) as [_ (x0 & y0 & Hs & Ht)].
  apply suitable_inside, outside_false in Hs. destruct Hs as [Hx0 Hy0].
  pose proof (traced_grid _ _ _ _ _ Ht) as Hg.
  rewrite Forall_forall in Hg. specialize (Hg index Hi). unfold inGrid in Hg.
  assert (Hw : 0 < width) by lia.
  exists (index mod width), (index / width).
  unfold riverPoint, getIndex. rewrite <- Zdiv_Qdiv.
  rewrite Z.rem_mod_nonneg by lia.
  split; [ reflexivity | ].
  split; [ apply Z.mod_pos_bound; exact Hw | ].
  split.
  - split; [ apply Z.div_pos; lia | ].
    apply Z.div_lt_upper_bound; [ exact Hw | lia ].
  - rewrite (Z.div_mod index width) at 3 by lia. ring.
Qed.

Lemma river_point_decodes_witness :
  In [10; 7] (generateRivers ridgeField 4 4 1 1 2) /\
  exists x y,
    riverPoint 4 7 = (x, y) /\ 0 <= x < 4 /\ 0 <= y < 4 /\ getIndex 4 x y = 7.
Proof.
  assert (H : In [10; 7] (generateRivers ridgeField 4 4 1 1 2))
    by (vm_compute; left; reflexivity).
  split; [ exact H | ].
  apply (river_point_decodes ridgeField 4 4 1 1 2 [10; 7] 7 H).
  simpl. tauto.
Defined.

(** ** createRandom: the stream of draws *)

(** X15. For a non-negative seed, every value returned by the closure
    of [createRandom] lies in [[0, 1)]. *)
Theorem random_draws_in_unit (n : nat) (seed : Z) :
  0 <= seed ->
  Forall (fun r => (0 <= r < 1)%Q) (randomDraws n seed).
Proof.
  revert seed. induction n as [|n IH]; intros seed Hseed; cbn [randomDraws].
  - constructor.
  - destruct (random_range seed Hseed) as [Hr Hs].
    destruct (random seed) as [r s]. cbn [fst snd] in Hr, Hs.
    constructor; [ exact Hr | now apply IH ].
Qed.

Lemma random_draws_in_unit_witness :
  Forall (fun r => (0 <= r < 1)%Q) (randomDraws 3 123456).
Proof.
  apply (random_draws_in_unit 3 123456). lia.
Defined.

(** ** generateRivers on a field of NaN *)

Section NaNField.

Variable noiseMap : list num.
Variables width height : Z.

Lemma num_lt_nan (v : num) : num_lt v NaN = false.
Proof. now destruct v. Qed.

Lemma lowestNeighbor_nan (cx cy : Z) :
  getHeight noiseMap width height cx cy = NaN ->
  lowestNeighbor noiseMap width height cx cy = (cx, cy, NaN).
Proof.
  intros H. unfold lowestNeighbor. rewrite H.
  apply (fold_left_preserves (fun low => low = (cx, cy, NaN))); [ | reflexivity ].
  intros low ny ->.
  apply (fold_left_preserves (fun low => low = (cx, cy, NaN))); [ | reflexivity ].
  intros low nx ->. unfold scanNeighbor.
  destruct ((nx =? 0) && (ny =? 0)); [ reflexivity | ].
  now rewrite num_lt_nan.
Qed.

Lemma walk_nan (fuel : nat) (x y : Z) :
  getHeight noiseMap width height x y = NaN ->
  fst (walk noiseMap width height (S fuel) [getIndex width x y] x y)
  = [getIndex width x y].
Proof.
  intros H. cbn [walk].
  replace (Z.of_nat (length [getIndex width x y]) <? 1000) with true
    by reflexivity.
  rewrite (lowestNeighbor_nan x y H). now rewrite !Z.eqb_refl.
Qed.

End NaNField.

(** X16. On a field whose cells are all NaN (what [generateNoiseMap]
    returns for a constant positive raw field), every sampled cell of
    the grid passes the height test and has no lower neighbour: every
    returned path is a single point. *)
Theorem nan_field_single_point_rivers (noiseMap : list num)
        (width height seed riverCount minRiverLength : Z) (river : list Z) :
  Forall (fun cell => cell = NaN) noiseMap ->
  In river (generateRivers noiseMap width height seed riverCount minRiverLength) ->
  exists index, river = [index].
Proof.
  intros Hnan Hin.
  destruct (generateRivers_walk _ _ _ _ _ _ _ Hin) as (x & y & Hs & ->).
  exists (getIndex width x y). apply walk_nan.
  apply suitable_inside in Hs. rewrite (getHeight_inside _ _ _ _ _ Hs).
  destruct (lookup_Forall _ noiseMap (getIndex width x y) Hnan) as [H|H];
    exact H.
Qed.

Lemma nan_field_single_point_rivers_witness :
  Forall (fun cell => cell = NaN) [NaN] /\
  In [0] (generateRivers [NaN] 1 1 1 1 1) /\
  exists index, [0] = [index].
Proof.
  assert (Hn : Forall (fun cell => cell = NaN) [NaN])
    by (apply Forall_cons; [ reflexivity | constructor ]).
  assert (H : In [0] (generateRivers [NaN] 1 1 1 1 1))
    by (vm_compute; left; reflexivity).
  split; [ exact Hn | split; [ exact H | ] ].
  exact (nan_field_single_point_rivers [NaN] 1 1 1 1 1 [0] Hn H).
Defined.

(** ** The renderer: the colour of a height *)

Module RenderProps.

Import String.

(** X17. A pixel gets the colour of deep water exactly when its height
    is a number at most 0.2, or is above every band of the table (a
    number above 1, or plus infinity), or compares with nothing (NaN),
    or is minus infinity: out of range heights are drawn as deep water. *)
Theorem deep_water_colour (height : num) :
  Render.terrainColor height = "#0077be"%string <->
  match height with
  | Fin q => (q <= 2 # 10)%Q \/ (1 < q)%Q
  | PInf | NInf | NaN => True
  end.
Proof.
  unfold Render.terrainColor, Render.terrainColors, Render.firstBand.
  destruct height as [q| | |]; simpl; try tauto.
  destruct (Qlt_le_dec (2 # 10) q) as [H1|H1]; [ | tauto ].
  destruct (Qlt_le_dec (3 # 10) q) as [H2|H2];
    [ | split; [ discriminate | intros [H|H]; exfalso; Lqa.lra ] ].
  destruct (Qlt_le_dec (4 # 10) q) as [H3|H3];
    [ | split; [ discriminate | intros [H|H]; exfalso; Lqa.lra ] ].
  destruct (Qlt_le_dec (5 # 10) q) as [H4|H4];
    [ | split; [ discriminate | intros [H|H]; exfalso; Lqa.lra ] ].
  destruct (Qlt_le_dec (7 # 10) q) as [H5|H5];
    [ | split; [ discriminate | intros [H|H]; exfalso; Lqa.lra ] ].
  destruct (Qlt_le_dec (8 # 10) q) as [H6|H6];
    [ | split; [ discriminate | intros [H|H]; exfalso; Lqa.lra ] ].
  destruct (Qlt_le_dec 1 q) as [H7|H7];
    [ tauto | split; [ discriminate | intros [H|H]; exfalso; Lqa.lra ] ].
Qed.

End RenderProps.

(** ** Further properties: round trip, search, sources *)

(** X18. On the grid, the decoding of the renderer inverts the encoding
    of the generator: [getIndex(x, y)] decodes to [(x, y)]. *)
Theorem river_point_round_trip (width height x y : Z) :
  outside width height x y = false ->
  riverPoint width (getIndex width x y) = (x, y).
Proof.
  intros H. apply outside_false in H. destruct H as [Hx Hy].
  unfold riverPoint, getIndex. rewrite <- Zdiv_Qdiv.
  rewrite Z.rem_mod_nonneg by nia.
  rewrite Z.add_comm, Z.mod_add, Z.div_add by lia.
  rewrite Z.mod_small, Z.div_small by lia. f_equal; lia.
Qed.

Lemma river_point_round_trip_witness :
  outside 4 4 3 1 = false /\ riverPoint 4 (getIndex 4 3 1) = (3, 1).
Proof.
  split; [ reflexivity | ].
  exact (river_point_round_trip 4 4 3 1 eq_refl).
Defined.

Lemma searchStart_attempts (noiseMap : list num) (width height : Z) (fuel : nat) :
  forall state n,
    n < 100 ->
    n < attempts (searchStart noiseMap width height fuel state n) <= 100.
Proof.
  induction fuel as [|fuel IH]; intros state n Hn; cbn [searchStart];
    destruct (random state) as [r1 s1]; destruct (random s1) as [r2 s2];
    destruct (unsuitable noiseMap width height _ _ && (n + 1 <? 100)) eqn:E;
    cbn [attempts]; try lia.
  apply andb_true_iff in E. destruct E as [_ E]. apply Z.ltb_lt in E.
  specialize (IH s2 (n + 1) E). lia.
Qed.

(** X19. The start-point search of one river attempt samples at least
    one point and at most 100. *)
Theorem search_attempts_bounded (noiseMap : list num) (width height : Z)
        (fuel : nat) (state : Z) :
  1 <= attempts (searchStart noiseMap width height fuel state 0) <= 100.
Proof.
  pose proof (searchStart_attempts noiseMap width height fuel state 0 ltac:(lia)).
  lia.
Qed.

(** X21. When no cell of the grid passes the height test of the search
    (every height read on the grid is below 0.6 or above 0.8), and in
    particular when the grid has no cell, [generateRivers] returns no
    path. *)
Theorem no_source_no_river (noiseMap : list num)
        (width height seed riverCount minRiverLength : Z) :
  (forall index,
      0 <= index < width * height ->
      num_lt (lookup noiseMap index) (Fin (6 # 10)) = true \/
      num_gt (lookup noiseMap index) (Fin (8 # 10)) = true) ->
  generateRivers noiseMap width height seed riverCount minRiverLength = [].
Proof.
  intros Hnone.
  destruct (generateRivers noiseMap width height seed riverCount minRiverLength)
    as [|river rest] eqn:E; [ reflexivity | exfalso ].
  assert (Hin : In river (generateRivers noiseMap width height seed riverCount
                                         minRiverLength))
    by (rewrite E; now left).
  destruct (generateRivers_traced _ _ _ _ _ _ _ Hin) as [_ (x & y & Hs & _)].
  pose proof (suitable_inside _ _ _ _ _ Hs) as Hi.
  unfold unsuitable in Hs. rewrite (getHeight_inside _ _ _ _ _ Hi) in Hs.
  apply orb_false_iff in Hs. destruct Hs as [H1 H2].
  destruct (Hnone _ (inside_index _ _ _ _ Hi)); congruence.
Qed.

Lemma no_source_no_river_witness :
  generateRivers [Fin (1 # 2)] 1 1 123456 5 1 = [].
Proof.
  apply (no_source_no_river [Fin (1 # 2)] 1 1 123456 5 1).
  intros index H. assert (index = 0) by lia. subst index.
  left. reflexivity.
Defined.

(** * generateNoiseMap *)

Lemma assign_length {A : Type} (arr : list A) (i : nat) (v : A) :
  length (assign arr i v) = length arr.
Proof.
  revert i. induction arr as [|a arr IH]; intros [|i]; simpl; auto.
Qed.

Lemma nth_assign_same {A : Type} (arr : list A) (i : nat) (v d : A) :
  (i < length arr)%nat -> nth i (assign arr i v) d = v.
Proof.
  revert i. induction arr as [|a arr IH]; intros [|i] H; simpl in *;
    try lia; auto. apply IH. lia.
Qed.

Lemma nth_assign_other {A : Type} (arr : list A) (i j : nat) (v d : A) :
  i <> j -> nth j (assign arr i v) d = nth j arr d.
Proof.
  revert i j. induction arr as [|a arr IH]; intros [|i] [|j] H; simpl;
    try reflexivity; try lia. apply IH. lia.
Qed.

Lemma assign_repeat {A : Type} (v : A) (n i : nat) :
  assign (repeat v n) i v = repeat v n.
Proof.
  revert i. induction n as [|n IH]; intros [|i]; simpl; try reflexivity.
  now rewrite IH.
Qed.

(** A [for (let i = 0; i < n; i++)] loop and an invariant indexed by [i]. *)
Lemma fold_zrange_invariant {A : Type} (P : Z -> A -> Prop) (f : A -> Z -> A)
      (n : Z) (a0 : A) :
  0 <= n ->
  P 0 a0 ->
  (forall i a, 0 <= i < n -> P i a -> P (i + 1) (f a i)) ->
  P n (fold_left f (zrange 0 (n - 1)) a0).
Proof.
  intros Hn H0 Hstep. unfold zrange.
  replace (n - 1 - 0 + 1) with n by lia.
  assert (H : forall m, (m <= Z.to_nat n)%nat ->
                        P (Z.of_nat m)
                          (fold_left f (map (fun k => 0 + Z.of_nat k) (seq 0 m)) a0)).
  { induction m as [|m IH]; intros Hm.
    - exact H0.
    - rewrite seq_S, map_app, fold_left_app. cbn [map fold_left Nat.add].
      replace (Z.of_nat (S m)) with (Z.of_nat m + 1) by lia.
      rewrite Z.add_0_l.
      apply Hstep; [ lia | apply IH; lia ]. }
  specialize (H (Z.to_nat n) (Nat.le_refl _)).
  now rewrite Z2Nat.id in H.
Qed.

Module NoiseProps.

Import PrimFloat.

(** Every write of the first pass is inside the array. *)
Lemma cell_index_range (width height x y : Z) :
  0 <= x < width -> 0 <= y < height ->
  (Z.to_nat (y * width + x) < Z.to_nat (width * height))%nat.
Proof. intros Hx Hy. nia. Qed.

Section FirstPassCells.

Variable noise2D : float -> float -> float.
Variables scale persistence lacunarity : float.
Variable octaveOffsets : list (float * float).
Variables width height : Z.

Let raw (x y : Z) : float :=
  Noise.noiseHeightAt noise2D scale persistence lacunarity octaveOffsets x y.

Let pass : list float * float * float :=
  Noise.rawPass noise2D scale persistence lacunarity octaveOffsets width height.

Lemma rawPass_length :
  length (Noise.rawCells pass) = Z.to_nat (width * height).
Proof.
  unfold pass, Noise.rawPass.
  apply (fold_left_preserves
           (fun acc => length (Noise.rawCells acc) = Z.to_nat (width * height))).
  - intros acc y Hacc. unfold Noise.rowStep.
    apply (fold_left_preserves
             (fun acc => length (Noise.rawCells acc) = Z.to_nat (width * height)));
      [ | exact Hacc ].
    intros [[arr hi] lo] x Harr. unfold Noise.cellStep, Noise.rawCells in *.
    cbn [fst] in *. now rewrite assign_length.
  - unfold Noise.rawCells. cbn [fst]. apply repeat_length.
Qed.

Let written (k : Z) (acc : list float * float * float) : Prop :=
  length (Noise.rawCells acc) = Z.to_nat (width * height) /\
  forall x y, 0 <= x < width -> 0 <= y < height -> y * width + x < k ->
              nth (Z.to_nat (y * width + x)) (Noise.rawCells acc) 0%float
              = raw x y.

Lemma cellStep_written (x y : Z) (acc : list float * float * float) :
  0 <= x < width -> 0 <= y < height ->
  written (y * width + x) acc ->
  written (y * width + x + 1)
          (Noise.cellStep noise2D scale persistence lacunarity octaveOffsets
                          width y x acc).
Proof.
  intros Hx Hy. destruct acc as [[arr hi] lo]. unfold written, Noise.rawCells.
  cbn [fst]. intros [Hlen Hcells]. unfold Noise.cellStep. cbn [fst].
  split; [ now rewrite assign_length | ].
  intros x' y' Hx' Hy' Hk.
  destruct (Z.eq_dec (y' * width + x') (y * width + x)) as [E|E].
  - assert (y' = y) by nia. subst y'. assert (x' = x) by lia. subst x'.
    apply nth_assign_same. rewrite Hlen. now apply cell_index_range.
  - rewrite nth_assign_other by nia.
    apply Hcells; [ assumption | assumption | lia ].
Qed.

(** The raw field is laid out row by row: the cell of index
    [y * width + x] holds the raw value of [(x, y)]. *)
Lemma rawPass_row_major (x y : Z) :
  0 <= x < width -> 0 <= y < height ->
  nth (Z.to_nat (y * width + x)) (Noise.rawCells pass) 0%float = raw x y.
Proof.
  intros Hx Hy.
  assert (H : written (height * width) pass).
  { unfold pass, Noise.rawPass.
    apply (fold_zrange_invariant (fun y acc => written (y * width) acc)).
    - lia.
    - split; [ apply repeat_length | intros; nia ].
    - intros y0 acc Hy0 Hacc. unfold Noise.rowStep.
      replace ((y0 + 1) * width) with (y0 * width + width) by ring.
      apply (fold_zrange_invariant (fun x acc => written (y0 * width + x) acc)).
      + lia.
      + now rewrite Z.add_0_r.
      + intros x0 acc' Hx0 Hacc'.
        replace (y0 * width + (x0 + 1)) with (y0 * width + x0 + 1) by ring.
        now apply cellStep_written. }
  destruct H as [_ H]. apply H; [ assumption | assumption | nia ].
Qed.

End FirstPassCells.

Section NoOctave.

Variable noise2D : float -> float -> float.
Variables scale persistence lacunarity : float.
Variables width height : Z.

Let flat (k : Z) (acc : list float * float * float) : Prop :=
  acc = (repeat 0%float (Z.to_nat (width * height)), Noise.MIN_VALUE,
         if k <=? 0 then Noise.MAX_VALUE else 0%float).

Lemma cellStep_flat (k x y : Z) (acc : list float * float * float) :
  0 <= k -> flat k acc ->
  flat (k + 1)
       (Noise.cellStep noise2D scale persistence lacunarity [] width y x acc).
Proof.
  intros Hk ->. unfold flat, Noise.cellStep, Noise.noiseHeightAt.
  cbn [Noise.octaveLoop]. rewrite assign_repeat.
  replace (k + 1 <=? 0) with false by (symmetry; apply Z.leb_gt; lia).
  destruct (k <=? 0); reflexivity.
Qed.

(** With no octave every raw value is 0: the first pass leaves the
    array of zeros, the initial maximum, and the minimum 0. *)
Lemma rawPass_flat :
  1 <= width -> 1 <= height ->
  Noise.rawPass noise2D scale persistence lacunarity [] width height
  = (repeat 0%float (Z.to_nat (width * height)), Noise.MIN_VALUE, 0%float).
Proof.
  intros Hw Hh.
  assert (H : flat (height * width)
                   (Noise.rawPass noise2D scale persistence lacunarity []
                                  width height)).
  { unfold Noise.rawPass.
    apply (fold_zrange_invariant (fun y acc => flat (y * width) acc)).
    - lia.
    - reflexivity.
    - intros y0 acc Hy0 Hacc. unfold Noise.rowStep.
      replace ((y0 + 1) * width) with (y0 * width + width) by ring.
      apply (fold_zrange_invariant (fun x acc => flat (y0 * width + x) acc)).
      + lia.
      + now rewrite Z.add_0_r.
      + intros x0 acc' Hx0 Hacc'.
        replace (y0 * width + (x0 + 1)) with (y0 * width + x0 + 1) by ring.
        apply cellStep_flat; [ nia | exact Hacc' ]. }
  unfold flat in H. rewrite H.
  now replace (height * width <=? 0) with false by (symmetry; apply Z.leb_gt; nia).
Qed.

End NoOctave.

(** X10. [generateNoiseMap] throws (the [RangeError] of [new Array]
    and of [Array.from], here [None]) exactly when [width * height] is
    negative or above [2^32 - 1], or [octaves] is above [2^32 - 1];
    otherwise it returns a field of exactly [width * height] cells. *)
Theorem noise_field_size (createNoise2D : Z -> (float -> float -> float) * Z)
        (width height seed : Z) (scale : float) (octaves : Z)
        (persistence lacunarity : float) :
  match Noise.generateNoiseMap createNoise2D width height seed scale octaves
                               persistence lacunarity with
  | None =>
      width * height < 0 \/ 4294967295 < width * height \/
      4294967295 < octaves
  | Some field =>
      0 <= width * height <= 4294967295 /\ octaves <= 4294967295 /\
      Z.of_nat (length field) = width * height
  end.
Proof.
  unfold Noise.generateNoiseMap.
  destruct (width * height <? 0) eqn:E1; cbn [orb].
  - left. now apply Z.ltb_lt in E1.
  - apply Z.ltb_ge in E1.
    destruct (4294967295 <? width * height) eqn:E2; cbn [orb].
    + right. left. now apply Z.ltb_lt in E2.
    + apply Z.ltb_ge in E2.
      destruct (4294967295 <? octaves) eqn:E3.
      * right. right. now apply Z.ltb_lt in E3.
      * apply Z.ltb_ge in E3. split; [ lia | split; [ exact E3 | ] ].
        rewrite length_map. unfold Noise.firstPass.
        destruct (createNoise2D seed) as [noise2D state].
        rewrite rawPass_length. lia.
Qed.

(** X11. The field is laid out row by row, as the renderer reads it:
    for a cell [(x, y)] of the grid, [noiseMap[y * width + x]] is the
    normalised sum of the octaves of the sampler at [(x, y)]. *)
Theorem noise_field_row_major
        (createNoise2D : Z -> (float -> float -> float) * Z)
        (width height seed : Z) (scale : float) (octaves : Z)
        (persistence lacunarity : float) (field : list float) (x y : Z) :
  let noise2D := fst (createNoise2D seed) in
  let state := snd (createNoise2D seed) in
  let scale' :=
    if (scale <=? 0)%float then 0x1.a36e2eb1c432dp-14%float else scale in
  let octaveOffsets := Noise.drawOffsets (Z.to_nat octaves) state in
  let pass :=
    Noise.firstPass createNoise2D width height seed scale octaves
                    persistence lacunarity in
  0 <= x < width -> 0 <= y < height ->
  Noise.generateNoiseMap createNoise2D width height seed scale octaves
                         persistence lacunarity = Some field ->
  nth_error field (Z.to_nat (y * width + x))
  = Some (Noise.normalize (Noise.trackedMax pass) (Noise.trackedMin pass)
                          (Noise.noiseHeightAt noise2D scale' persistence
                                               lacunarity octaveOffsets x y)).
Proof.
  intros noise2D state scale' octaveOffsets pass Hx Hy Hfield.
  unfold Noise.generateNoiseMap in Hfield. fold pass in Hfield.
  destruct ((width * height <? 0) || (4294967295 <? width * height)
            || (4294967295 <? octaves));
    [ discriminate | ].
  injection Hfield as <-.
  assert (Hlen : length (Noise.rawCells pass) = Z.to_nat (width * height) /\
                 nth (Z.to_nat (y * width + x)) (Noise.rawCells pass) 0%float
                 = Noise.noiseHeightAt noise2D scale' persistence lacunarity
                                       octaveOffsets x y).
  { unfold pass, Noise.firstPass, noise2D, octaveOffsets, state, scale'.
    destruct (createNoise2D seed) as [n2 st]. cbn [fst snd].
    split; [ apply rawPass_length | now apply rawPass_row_major ]. }
  destruct Hlen as [Hlen Hnth].
  rewrite nth_error_map.
  rewrite (nth_error_nth' _ 0%float)
    by (rewrite Hlen; now apply cell_index_range).
  cbn [option_map]. now rewrite Hnth.
Qed.

Lemma noise_field_row_major_witness :
  exists field,
    Noise.generateNoiseMap Noise.slopeNoise 2 1 1 1 1 0.5 2 = Some field /\
    nth_error field 1
    = Some (Noise.normalize
              (Noise.trackedMax (Noise.firstPass Noise.slopeNoise 2 1 1 1 1 0.5 2))
              (Noise.trackedMin (Noise.firstPass Noise.slopeNoise 2 1 1 1 1 0.5 2))
              (Noise.noiseHeightAt (fst (Noise.slopeNoise 1)) 1 0.5 2
                                   (Noise.drawOffsets 1 (snd (Noise.slopeNoise 1)))
                                   1 0)).
Proof.
  eexists.
  split; [ vm_compute; reflexivity | ].
  apply (noise_field_row_major Noise.slopeNoise 2 1 1 1 1 0.5 2 _ 1 0);
    [ lia | lia | vm_compute; reflexivity ].
Defined.

(** X12. With no octave ([octaves <= 0]), at least one cell and at most
    [2^32 - 1], the raw field is 0 everywhere, the tracked maximum stays
    [Number.MIN_VALUE], the tracked minimum is 0, and a field is
    returned whose every cell is exactly 0. *)
Theorem zero_octaves_flat_field
        (createNoise2D : Z -> (float -> float -> float) * Z)
        (width height seed : Z) (scale : float) (octaves : Z)
        (persistence lacunarity : float) :
  let pass :=
    Noise.firstPass createNoise2D width height seed scale octaves
                    persistence lacunarity in
  let zeros := repeat 0%float (Z.to_nat (width * height)) in
  1 <= width -> 1 <= height -> width * height <= 4294967295 ->
  octaves <= 0 ->
  Noise.rawCells pass = zeros /\
  Noise.trackedMax pass = Noise.MIN_VALUE /\
  Noise.trackedMin pass = 0%float /\
  Noise.generateNoiseMap createNoise2D width height seed scale octaves
                         persistence lacunarity = Some zeros /\
  zeros <> [].
Proof.
  intros pass zeros Hw Hh Hsize Hoct.
  assert (Hpass : pass = (zeros, Noise.MIN_VALUE, 0%float)).
  { unfold pass, Noise.firstPass.
    destruct (createNoise2D seed) as [noise2D state].
    replace (Z.to_nat octaves) with 0%nat by lia. cbn [Noise.drawOffsets].
    now apply rawPass_flat. }
  unfold Noise.generateNoiseMap. fold pass. rewrite Hpass.
  unfold Noise.rawCells, Noise.trackedMax, Noise.trackedMin. cbn [fst snd].
  replace (width * height <? 0) with false by (symmetry; apply Z.ltb_ge; nia).
  replace (4294967295 <? width * height) with false
    by (symmetry; apply Z.ltb_ge; lia).
  replace (4294967295 <? octaves) with false
    by (symmetry; apply Z.ltb_ge; lia).
  cbn [orb]. repeat split.
  - f_equal. unfold zeros. rewrite map_repeat. reflexivity.
  - unfold zeros. destruct (Z.to_nat (width * height)) eqn:E; [ nia | discriminate ].
Qed.

Lemma zero_octaves_flat_field_witness :
  Noise.generateNoiseMap (Noise.flatNoise 0.5) 2 2 1 100 0 0.5 2
  = Some [0%float; 0%float; 0%float; 0%float] /\
  Noise.trackedMax (Noise.firstPass (Noise.flatNoise 0.5) 2 2 1 100 0 0.5 2)
  = Noise.MIN_VALUE.
Proof.
  pose proof (zero_octaves_flat_field (Noise.flatNoise 0.5) 2 2 1 100 0 0.5 2
                ltac:(lia) ltac:(lia) ltac:(lia) ltac:(lia)) as H.
  cbv zeta in H. destruct H as (_ & Hmax & _ & Hfield & _).
  split; [ exact Hfield | exact Hmax ].
Defined.

(** [v - v] is [+0] for a finite [v], and NaN otherwise. *)
Lemma sub_self (v : float) : (v - v)%float = 0%float \/ (v - v)%float = nan.
Proof.
  rewrite <- (FloatAxioms.SF2Prim_Prim2SF (v - v)), FloatAxioms.sub_spec.
  destruct (FloatOps.Prim2SF v) as [s|s| |s m e].
  - left. destruct s; reflexivity.
  - right. destruct s; reflexivity.
  - right. reflexivity.
  - left. unfold FloatAxioms.SF64sub, SpecFloat.SFsub.
    cbv zeta. rewrite Z.sub_diag. reflexivity.
Qed.

(** The second pass on a cell that equals both tracked bounds. *)
Lemma normalize_self (v : float) : Noise.normalize v v v = nan.
Proof.
  unfold Noise.normalize. destruct (sub_self v) as [-> | ->]; reflexivity.
Qed.

(** Whatever the sampler and the grid: when the first pass ends with
    [maxNoiseHeight] equal to [minNoiseHeight] and every raw cell equal
    to them, every cell of the returned field is NaN. *)
Lemma constant_field_all_nan
      (createNoise2D : Z -> (float -> float -> float) * Z)
      (width height seed : Z) (scale : float) (octaves : Z)
      (persistence lacunarity : float) (field : list float) :
  let pass :=
    Noise.firstPass createNoise2D width height seed scale octaves
                    persistence lacunarity in
  Noise.trackedMax pass = Noise.trackedMin pass ->
  Forall (fun raw => raw = Noise.trackedMin pass) (Noise.rawCells pass) ->
  Noise.generateNoiseMap createNoise2D width height seed scale octaves
                         persistence lacunarity = Some field ->
  Forall (fun cell => cell = nan) field.
Proof.
  intros pass Hbounds Hcells Hfield.
  unfold Noise.generateNoiseMap in Hfield. fold pass in Hfield.
  destruct ((width * height <? 0) || (4294967295 <? width * height)
            || (4294967295 <? octaves));
    [ discriminate | ].
  injection Hfield as <-. rewrite Hbounds.
  apply Forall_map. revert Hcells. apply Forall_impl.
  intros raw ->. apply normalize_self.
Qed.

(** C2. On a 1 x 1 grid whose raw value is 0.25, the tracked minimum
    and the tracked maximum are both 0.25; the second pass divides
    [0.25 - 0.25] by [0.25 - 0.25] and the returned cell is NaN: the
    division by zero is not avoided and the cell is not 0. *)
Theorem equal_bounds_not_zero :
  let pass := Noise.firstPass (Noise.flatNoise 0.25) 1 1 1 1 1 0.5 2 in
  Noise.rawCells pass = [0.25%float] /\
  Noise.trackedMax pass = Noise.trackedMin pass /\
  (Noise.trackedMax pass - Noise.trackedMin pass)%float = 0%float /\
  Noise.generateNoiseMap (Noise.flatNoise 0.25) 1 1 1 1 1 0.5 2 = Some [nan] /\
  Noise.heightField [nan] = [NaN] /\
  ~ Forall (isValue 0) (Noise.heightField [nan]).
Proof.
  cbv zeta. repeat split; try (vm_compute; reflexivity).
  intros H. vm_compute in H. inversion H as [|? ? H0 _]. exact H0.
Qed.


(** The initial value [Number.MIN_VALUE] of the tracked maximum is the
    smallest positive double, not the lowest one: on a raw field with
    no positive value (here -0.5 and -0.25) it stays the tracked
    maximum, and the largest cell of the returned field is 0.5, not 1. *)
Lemma negative_field_below_one :
  Noise.rawCells (Noise.firstPass Noise.stepNoise 2 1 1 1 1 0.5 2)
  = [(-0.5)%float; (-0.25)%float] /\
  Noise.trackedMax (Noise.firstPass Noise.stepNoise 2 1 1 1 1 0.5 2)
  = Noise.MIN_VALUE /\
  Noise.generateNoiseMap Noise.stepNoise 2 1 1 1 1 0.5 2
  = Some [0%float; 0.5%float].
Proof. repeat split; vm_compute; reflexivity. Qed.

(** A range that overflows: with the finite raw values -2^1023 and
    2^1023 the difference of the tracked bounds is infinite, and the
    cell of the maximum is infinity / infinity, NaN. *)
Lemma overflowing_range_gives_nan :
  Noise.generateNoiseMap
    (fun state =>
       (fun sampleX _ =>
          if (sampleX <? 23646)%float then (-0x1p1023)%float else 0x1p1023%float,
        state))
    2 1 1 1 1 0.5 2
  = Some [0%float; nan].
Proof. vm_compute. reflexivity. Qed.

End NoiseProps.
